(** * Orb: the orbit evaluator and the retrograde curve

    A shallow embedding of the motion model of the solar-system scene
    (the [RetrogradeCurve] class, the per-frame callback of the [Planet]
    component and the frame toggle of the [SolarSystem] component).

    JavaScript numbers are modelled as real numbers: [Math.cos], [Math.sin]
    and [Math.PI] are the functions [cos], [sin] and the constant [PI] of the
    standard library of reals, and [+], [*] and unary minus are exact.
    Rounding, NaN and infinities are outside the model. *)

From Stdlib Require Import Reals Lra Psatz String List Bool.
Import ListNotations.

Open Scope R_scope.

(** ** Vectors *)

(** [THREE.Vector3]. *)
Record Vector3 : Type := mkVector3 { vx : R; vy : R; vz : R }.

(** Euclidean distance of a point from the origin of its frame
    ([Vector3.length] of three.js). *)
Definition norm (v : Vector3) : R :=
  sqrt (vx v * vx v + vy v * vy v + vz v * vz v).

(** Euclidean distance between two points ([Vector3.distanceTo]). *)
Definition distanceTo (a b : Vector3) : R :=
  norm (mkVector3 (vx a - vx b) (vy a - vy b) (vz a - vz b)).

(** ** The retrograde curve of the orbit ring *)

Module RetrogradeCurve.

(** The fields set by the constructor
    [constructor(radius, amplitudeFactor = 0.1, speedMultiplier = 2)]. *)
Record t : Type := new
  { radius : R; amplitudeFactor : R; speedMultiplier : R }.

(** [getPoint(t)]. *)
Definition getPoint (this : t) (t : R) : Vector3 :=
  let angle := t * PI * 2 in
  let deferentX := cos angle * radius this in
  let deferentZ := sin angle * radius this in
  let epicycleRadius := radius this * amplitudeFactor this in
  let epicycleAngle := - speedMultiplier this * angle in
  let epiX := cos epicycleAngle * epicycleRadius in
  let epiZ := sin epicycleAngle * epicycleRadius in
  mkVector3 (deferentX + epiX) 0 (deferentZ + epiZ).

End RetrogradeCurve.

(** The curve every retrograde ring is built from in [OrbitRing]:
    [new RetrogradeCurve(radius, 0.1, 2)].  (The stand-alone [OrbitRing]
    file writes the same two constants into [getPoint] itself.) *)
Definition ringCurve (radius : R) : RetrogradeCurve.t :=
  RetrogradeCurve.new radius 0.1 2.

(** Modelled from the spec: the uniform sampling of the closed curve at
    [segments] parameter values [i / segments] (the source hands the curve
    to [THREE.TubeGeometry] with 100 segments and [closed = true]; the
    tessellation itself is library code). *)
Definition uniformSample (c : RetrogradeCurve.t) (segments i : nat) : Vector3 :=
  RetrogradeCurve.getPoint c (INR i / INR segments).

(** ** The Planet component *)

(** The props the per-frame callback reads. *)
Record PlanetProps : Type := mkPlanetProps
  { position : Vector3;
    orbitRadius : R;
    orbitSpeed : R;
    isHeliocentric : bool;
    name : string }.

(** The three objects behind [groupRef], [meshRef] and [glowRef]: the
    position of the group and the spin of the two meshes. *)
Record Refs : Type := mkRefs
  { groupPosition : Vector3; meshRotationY : R; glowRotationY : R }.

(** The state of one mounted [Planet]: the [angle] of [useState(0)] and the
    refs, [None] while they are still [null]. *)
Record PlanetState : Type := mkPlanetState
  { angle : R; refs : option Refs }.

(** [name === "Earth" || name === "Moon"]. *)
Definition isExempt (name : string) : bool :=
  String.eqb name "Earth" || String.eqb name "Moon".

(** The callback passed to [useFrame]. *)
Definition useFrame (p : PlanetProps) (st : PlanetState) : PlanetState :=
  match refs st with
  | None => st
  | Some rf =>
    let newAngle := angle st + orbitSpeed p in
    let pos := groupPosition rf in
    let pos' :=
      if Rlt_dec 0 (orbitRadius p) then
        if isHeliocentric p || isExempt (name p) then
          mkVector3 (cos newAngle * orbitRadius p)
                    (vy pos)
                    (sin newAngle * orbitRadius p)
        else
          let deferentX := cos newAngle * orbitRadius p in
          let deferentZ := sin newAngle * orbitRadius p in
          let epicycleRadius := orbitRadius p * 0.05 in
          let epicycleAngle := - newAngle * 1.5 in
          let epiX := cos epicycleAngle * epicycleRadius in
          let epiZ := sin epicycleAngle * epicycleRadius in
          mkVector3 (deferentX + epiX) (vy pos) (deferentZ + epiZ)
      else position p in
    mkPlanetState newAngle
      (Some (mkRefs pos' (meshRotationY rf + 0.005) (glowRotationY rf + 0.005)))
  end.

(** The position prop of the group:
    [orbitRadius > 0 ? [orbitRadius, 0, 0] : position]. *)
Definition groupProp (p : PlanetProps) : Vector3 :=
  if Rlt_dec 0 (orbitRadius p) then mkVector3 (orbitRadius p) 0 0
  else position p.

(** A freshly mounted [Planet]: [useState(0)] and the group placed by its
    position prop. *)
Definition mount (p : PlanetProps) : PlanetState :=
  mkPlanetState 0 (Some (mkRefs (groupProp p) 0 0)).

(** What the rest of the program observes of a tick: the stored angle and
    the position of the group. *)
Definition evaluate (p : PlanetProps) (st : PlanetState) : R * option Vector3 :=
  let st' := useFrame p st in
  (angle st', option_map groupPosition (refs st')).

(** A mounted planet in its orbital plane: the refs are attached and, for an
    orbiting body, the group has height zero. *)
Definition inPlane (radius : R) (st : PlanetState) : Prop :=
  exists rf, refs st = Some rf /\ (0 < radius -> vy (groupPosition rf) = 0).

(** The props of a body under the frame flag [h], everything else kept. *)
Definition withFrame (p : PlanetProps) (h : bool) : PlanetProps :=
  mkPlanetProps (position p) (orbitRadius p) (orbitSpeed p) h (name p).

(** ** The SolarSystem component *)

Inductive Body : Type :=
| Sun | Mercury | Venus | Earth | Moon | Mars | Jupiter | Saturn
| Uranus | Neptune | Pluto.

Record InfoData : Type := mkInfoData
  { title : string; summary : string;
    opengraphLink : string; opengraphImage : string }.

(** What a slot of the scene holds after a render: nothing, a [Planet], or
    a [Trail] around a [Planet]. *)
Inductive Element : Type :=
| Absent
| PlanetElement (p : PlanetProps)
| TrailElement (p : PlanetProps).

Module SolarSystem.

(** The three [useState] cells of the component and the mounted planets
    of its scene. *)
Record State : Type := mkState
  { isHeliocentric : bool;
    animTrigger : bool;
    selectedObjectInfo : option InfoData;
    planets : Body -> option PlanetState }.

Definition origin : Vector3 := mkVector3 0 0 0.

(** The JSX of the planets, slot by slot. *)
Definition render (h : bool) (b : Body) : Element :=
  match b with
  | Sun =>
    if negb h then TrailElement (mkPlanetProps origin 30 0.02 h "Sun")
    else PlanetElement (mkPlanetProps origin 0 0.02 h "Sun")
  | Mercury =>
    let p := mkPlanetProps (mkVector3 3.9 0 0) 3.9 0.047 h "Mercury" in
    if negb h then TrailElement p else PlanetElement p
  | Venus =>
    let p := mkPlanetProps (mkVector3 7.2 0 0) 7.2 0.035 h "Venus" in
    if negb h then TrailElement p else PlanetElement p
  | Earth =>
    PlanetElement
      (mkPlanetProps (if h then mkVector3 10 0 0 else origin)
                     (if h then 10 else 0) 0.029 h "Earth")
  | Moon => PlanetElement (mkPlanetProps origin 2 0.07 h "Moon")
  | Mars =>
    if negb h
    then TrailElement (mkPlanetProps (mkVector3 35.2 0 0) 40.2 0.024 h "Mars")
    else PlanetElement (mkPlanetProps (mkVector3 15.2 0 0) 15.2 0.024 h "Mars")
  | Jupiter =>
    let p := mkPlanetProps (mkVector3 52 0 0) 52 0.013 h "Jupiter" in
    if negb h then TrailElement p else PlanetElement p
  | Saturn =>
    let p := mkPlanetProps (mkVector3 95.8 0 0) 95.8 0.009 h "Saturn" in
    if negb h then TrailElement p else PlanetElement p
  | Uranus =>
    if h then PlanetElement (mkPlanetProps (mkVector3 192 0 0) 192 0.006 h "Uranus")
    else Absent
  | Neptune =>
    if h then PlanetElement (mkPlanetProps (mkVector3 300.5 0 0) 300.5 0.005 h "Neptune")
    else Absent
  | Pluto =>
    if h then PlanetElement (mkPlanetProps (mkVector3 394.8 0 0) 394.8 0.004 h "Pluto")
    else Absent
  end.

Definition propsOf (e : Element) : option PlanetProps :=
  match e with
  | Absent => None
  | PlanetElement p | TrailElement p => Some p
  end.

Definition Vector3_eqb (a b : Vector3) : bool :=
  (if Req_EM_T (vx a) (vx b) then true else false)
  && (if Req_EM_T (vy a) (vy b) then true else false)
  && (if Req_EM_T (vz a) (vz b) then true else false).

(** A [Planet] that stays mounted keeps its hooks and its refs; the group
    is moved only when its position prop has changed. *)
Definition update (old new : PlanetProps) (st : PlanetState) : PlanetState :=
  if Vector3_eqb (groupProp old) (groupProp new) then st
  else mkPlanetState (angle st)
         (option_map
            (fun rf => mkRefs (groupProp new) (meshRotationY rf) (glowRotationY rf))
            (refs st)).

(** Reconciliation of one slot: an element of the same type as the one
    it replaces keeps the mounted instance with its state; an element of
    another type unmounts it, and the new [Planet] starts from
    [useState(0)]. *)
Definition reconcile (old new : Element) (inst : option PlanetState)
  : option PlanetState :=
  match old, new with
  | PlanetElement p, PlanetElement q
  | TrailElement p, TrailElement q => option_map (update p q) inst
  | _, Absent => None
  | _, PlanetElement q | _, TrailElement q => Some (mount q)
  end.

(** The first render. *)
Definition init : State :=
  mkState true false None (fun b => reconcile Absent (render true b) None).

(** The [onClick] handler of the toggle button. *)
Definition onClick (s : State) : State :=
  mkState (negb (isHeliocentric s))
          (negb (animTrigger s))
          None
          (planets s).

(** The render that follows a change of the frame flag from [h]. *)
Definition commit (h : bool) (s : State) : State :=
  mkState (isHeliocentric s) (animTrigger s) (selectedObjectInfo s)
    (fun b => reconcile (render h b) (render (isHeliocentric s) b) (planets s b)).

(** A click on the toggle, through to the next render. *)
Definition toggle (s : State) : State :=
  commit (isHeliocentric s) (onClick s).

(** One rendered frame: every mounted planet runs its callback. *)
Definition tick (s : State) : State :=
  mkState (isHeliocentric s) (animTrigger s) (selectedObjectInfo s)
    (fun b =>
       match propsOf (render (isHeliocentric s) b), planets s b with
       | Some p, Some st => Some (useFrame p st)
       | _, _ => None
       end).

(** The stored angle of a body, when it is mounted. *)
Definition angleOf (s : State) (b : Body) : option R :=
  option_map angle (planets s b).

End SolarSystem.

(** ** The bodies of the scene used as examples *)

Definition jupiterGeocentric : PlanetProps :=
  mkPlanetProps (mkVector3 52 0 0) 52 0.013 false "Jupiter".

Definition earthHeliocentric : PlanetProps :=
  mkPlanetProps (mkVector3 10 0 0) 10 0.029 true "Earth".

Definition sunHeliocentric : PlanetProps :=
  mkPlanetProps SolarSystem.origin 0 0.02 true "Sun".

Definition sunGeocentric : PlanetProps :=
  mkPlanetProps SolarSystem.origin 30 0.02 false "Sun".

(** The states the scene goes through: the first render, then rendered
    frames and clicks on the toggle in any order. *)
Inductive reachable : SolarSystem.State -> Prop :=
| reachable_init : reachable SolarSystem.init
| reachable_tick s : reachable s -> reachable (SolarSystem.tick s)
| reachable_toggle s : reachable s -> reachable (SolarSystem.toggle s).

(** ** Consecutive frames of one planet *)

(** [n] successive runs of the callback of a [Planet] whose props do not
    change in between. *)
Fixpoint frames (p : PlanetProps) (n : nat) (st : PlanetState) : PlanetState :=
  match n with
  | O => st
  | S k => useFrame p (frames p k st)
  end.

(** The group of the Moon is a child of the group of Earth, which carries a
    position and no rotation or scale of its own: for a child at [local]
    in a parent at [parent], the place in the frame of the parent's parent. *)
Definition childPosition (parent local : Vector3) : Vector3 :=
  mkVector3 (vx parent + vx local) (vy parent + vy local) (vz parent + vz local).

(** The cross product of two points of the orbital plane, positive when
    the second lies counter-clockwise of the first as seen from the
    origin. *)
Definition planarCross (a b : Vector3) : R := vx a * vz b - vz a * vx b.

(** ** The OrbitRing component *)

Module OrbitRing.

(** The props the geometry and the click handler read. *)
Record Props : Type := mkProps
  { radius : R;
    isVisible : bool;
    planetName : string;
    isHeliocentric : bool;
    onSelect : bool }.

(** [!isHeliocentric && (planetName !== "Earth" && planetName !== "Moon")]. *)
Definition isRetrograde (p : Props) : bool :=
  negb (isHeliocentric p)
  && (negb (String.eqb (planetName p) "Earth")
      && negb (String.eqb (planetName p) "Moon")).

(** The arguments of [new THREE.TubeGeometry(curve, 100, r, 8, true)]. *)
Record TubeGeometry : Type := mkTubeGeometry
  { path : RetrogradeCurve.t;
    tubularSegments : nat;
    tubeRadius : R;
    radialSegments : nat;
    closed : bool }.

(** The memoised geometry of the visible ring. *)
Definition retroTubeGeometry (p : Props) : option TubeGeometry :=
  if isRetrograde p then
    let curve := RetrogradeCurve.new (radius p) 0.1 2 in
    let tubeRadius := if Req_EM_T (radius p) 394.8 then 0.2 else 0.05 in
    Some (mkTubeGeometry curve 100 tubeRadius 8 true)
  else None.

(** The memoised geometry of the invisible hit region. *)
Definition hitboxTubeGeometry (p : Props) : option TubeGeometry :=
  if isRetrograde p then
    let curve := RetrogradeCurve.new (radius p) 0.1 2 in
    Some (mkTubeGeometry curve 100 0.5 8 true)
  else None.

(** The three [useState] cells of a ring. *)
Record State : Type := mkState
  { isHovered : bool; isSelected : bool; lastClickTime : Z }.

Definition init : State := mkState false false 0%Z.

Definition onPointerOver (st : State) : State :=
  mkState true (isSelected st) (lastClickTime st).

Definition onPointerOut (st : State) : State :=
  mkState false (isSelected st) (lastClickTime st).

(** The [onClick] handler of the hit region, at the clock value [now] of
    [Date.now()]; [info] is what [getHoverInfo()] returns for the props of
    this render.  The second component is the call of [onSelect], if one
    is made, with its argument. *)
Definition onClick (p : Props) (info : InfoData) (now : Z) (st : State)
  : State * option (option InfoData) :=
  if (now - lastClickTime st >? 200)%Z then
    let newSelected := negb (isSelected st) in
    (mkState (isHovered st) newSelected now,
     if onSelect p then Some (if newSelected then Some info else None)
     else None)
  else (st, None).

End OrbitRing.

(** The rings of the scene, slot by slot; every one is passed [isVisible]
    and [onSelect={setSelectedObjectInfo}]. *)
Definition renderRing (h : bool) (b : Body) : option OrbitRing.Props :=
  match b with
  | Sun => if negb h then Some (OrbitRing.mkProps 30 true "Sun" h true) else None
  | Mercury => Some (OrbitRing.mkProps 3.9 true "Mercury" h true)
  | Venus => Some (OrbitRing.mkProps 7.2 true "Venus" h true)
  | Earth => if h then Some (OrbitRing.mkProps 10 true "Earth" h true) else None
  | Moon => Some (OrbitRing.mkProps 2 true "Moon" h true)
  | Mars => Some (OrbitRing.mkProps 40.2 true "Mars" h true)
  | Jupiter => Some (OrbitRing.mkProps 52 true "Jupiter" h true)
  | Saturn => Some (OrbitRing.mkProps 95.8 true "Saturn" h true)
  | Uranus => if h then Some (OrbitRing.mkProps 192 true "Uranus" h true) else None
  | Neptune => if h then Some (OrbitRing.mkProps 300.5 true "Neptune" h true) else None
  | Pluto => if h then Some (OrbitRing.mkProps 394.8 true "Pluto" h true) else None
  end.

Definition Body_eqb (a b : Body) : bool :=
  match a, b with
  | Sun, Sun | Mercury, Mercury | Venus, Venus | Earth, Earth | Moon, Moon
  | Mars, Mars | Jupiter, Jupiter | Saturn, Saturn
  | Uranus, Uranus | Neptune, Neptune | Pluto, Pluto => true
  | _, _ => false
  end.

(** ** The info panel and the rings that feed it *)

Module Panel.

(** The frame flag and the selected info of [SolarSystem], with the state
    of every mounted ring. *)
Record State : Type := mkState
  { isHeliocentric : bool;
    selectedObjectInfo : option InfoData;
    rings : Body -> option OrbitRing.State }.

(** The first render: every ring of the heliocentric frame is mounted. *)
Definition init : State :=
  mkState true None
    (fun b => match renderRing true b with
              | Some _ => Some OrbitRing.init
              | None => None
              end).

Section Clicks.

(** The text of each ring in each frame, the value of its [getHoverInfo()]. *)
Variable getHoverInfo : Body -> bool -> InfoData.

(** A click on the hit region of the ring of [b] at clock value [now]:
    the handler of the ring runs and its call of [onSelect], when made,
    is [setSelectedObjectInfo]. *)
Definition click (b : Body) (now : Z) (s : State) : State :=
  match renderRing (isHeliocentric s) b, rings s b with
  | Some p, Some rs =>
    let (rs', call) :=
      OrbitRing.onClick p (getHoverInfo b (isHeliocentric s)) now rs in
    mkState (isHeliocentric s)
            (match call with
             | Some arg => arg
             | None => selectedObjectInfo s
             end)
            (fun b' => if Body_eqb b' b then Some rs' else rings s b')
  | _, _ => s
  end.

End Clicks.

(** A click on the toggle, through to the next render: the flag is
    negated and the selection cleared; a ring rendered in both frames stays
    mounted with its state, one that appears is mounted afresh, one that
    disappears is unmounted. *)
Definition toggle (s : State) : State :=
  mkState (negb (isHeliocentric s)) None
    (fun b =>
       match renderRing (isHeliocentric s) b,
             renderRing (negb (isHeliocentric s)) b with
       | Some _, Some _ => rings s b
       | _, Some _ => Some OrbitRing.init
       | _, None => None
       end).

End Panel.

(** ** The camera transition *)

Module CameraTransition.

(** [Vector3.lerpVectors(v1, v2, alpha)] of three.js:
    [v1 + (v2 - v1) * alpha], coordinate by coordinate. *)
Definition lerpVectors (v1 v2 : Vector3) (alpha : R) : Vector3 :=
  mkVector3 (vx v1 + (vx v2 - vx v1) * alpha)
            (vy v1 + (vy v2 - vy v1) * alpha)
            (vz v1 + (vz v2 - vz v1) * alpha).

(** The position of the camera and the two refs of the component. *)
Record State : Type := mkState
  { cameraPosition : Vector3; animProgress : R; startPos : Vector3 }.

(** The component mounted on a camera at [camera], before its effect ran:
    [useRef(0)] and [useRef(new THREE.Vector3())]. *)
Definition mounted (camera : Vector3) : State :=
  mkState camera 0 (mkVector3 0 0 0).

(** The effect, run after the mount and after every render in which
    [triggerAnimation] has changed. *)
Definition effect (st : State) : State :=
  mkState (cameraPosition st) 0 (cameraPosition st).

(** The callback passed to [useFrame], with the frame time [delta]. *)
Definition useFrame (targetPos : Vector3) (delta : R) (st : State) : State :=
  if Rlt_dec (animProgress st) 1 then
    let progress := Rmin (animProgress st + delta * 0.5) 1 in
    mkState (lerpVectors (startPos st) targetPos progress) progress (startPos st)
  else st.

(** Successive frames with the frame times [deltas]. *)
Definition run (targetPos : Vector3) (deltas : list R) (st : State) : State :=
  fold_left (fun s delta => useFrame targetPos delta s) deltas st.

(** A render with the trigger prop [new] after one with [old]. *)
Definition rerender (old new : bool) (st : State) : State :=
  if Bool.eqb old new then st else effect st.

End CameraTransition.

(** [targetPos] of [SolarSystem]: [heliocentricPos] or [geocentricPos]. *)
Definition targetPos (isHeliocentric : bool) : Vector3 :=
  if isHeliocentric then mkVector3 0 500 500 else mkVector3 0 400 400.

(** The camera through a click on the toggle: the trigger prop flips, so
    the effect runs (before the next frame does). *)
Definition cameraAfterToggle (s : SolarSystem.State) (c : CameraTransition.State)
  : CameraTransition.State :=
  CameraTransition.rerender (SolarSystem.animTrigger s)
    (SolarSystem.animTrigger (SolarSystem.toggle s)) c.

(** ** The earlier scene of the same file *)

Module Legacy.

(** The props of the earlier [Planet], which tells the bodies apart by
    their colour. *)
Record Props : Type := mkProps
  { position : Vector3;
    color : string;
    orbitRadius : R;
    orbitSpeed : R;
    isHeliocentric : bool }.

(** The [angle] cell and the position of the mesh, [None] while [meshRef]
    is [null]. *)
Record State : Type := mkState
  { angle : R; meshPosition : option Vector3 }.

Definition mount (p : Props) : State := mkState 0 (Some (position p)).

(** The callback passed to [useFrame]. *)
Definition useFrame (p : Props) (st : State) : State :=
  match meshPosition st with
  | None => st
  | Some pos =>
    let newAngle := angle st + orbitSpeed p in
    let pos' :=
      if isHeliocentric p then
        if String.eqb (color p) "#FFD700" then mkVector3 0 (vy pos) 0
        else mkVector3 (cos (angle st) * orbitRadius p) (vy pos)
                       (sin (angle st) * orbitRadius p)
      else
        if String.eqb (color p) "#4169E1" then mkVector3 0 (vy pos) 0
        else if String.eqb (color p) "#FFD700" then
          mkVector3 (cos (angle st) * orbitRadius p) (vy pos)
                    (sin (angle st) * orbitRadius p)
        else
          mkVector3 (cos (angle st) * orbitRadius p) (vy pos)
                    (sin (angle st) * orbitRadius p) in
    mkState newAngle (Some pos')
  end.

End Legacy.

(** A turn by [phi] about the axis of the orbital plane, in the sense in
    which the angles of the bodies grow. *)
Definition rotateY (phi : R) (v : Vector3) : Vector3 :=
  mkVector3 (cos phi * vx v - sin phi * vz v) (vy v)
            (sin phi * vx v + cos phi * vz v).

(** Successive clicks on one ring at the clock values [ts], the props and
    the text of the ring staying the same. *)
Definition ringClicks (p : OrbitRing.Props) (info : InfoData) (ts : list Z)
           (st : OrbitRing.State) : OrbitRing.State :=
  fold_left (fun s now => fst (OrbitRing.onClick p info now s)) ts st.

(** Clock values each more than 200 ms after the one before, [last] being
    the one before the first. *)
Fixpoint spaced (last : Z) (ts : list Z) : Prop :=
  match ts with
  | [] => True
  | t :: rest => (t - last > 200)%Z /\ spaced t rest
  end.

(** The frame times of a run of frames, added up. *)
Definition totalTime (deltas : list R) : R := fold_right Rplus 0 deltas.

(** [n] successive runs of the earlier callback. *)
Fixpoint legacyFrames (p : Legacy.Props) (n : nat) (st : Legacy.State)
  : Legacy.State :=
  match n with
  | O => st
  | S k => Legacy.useFrame p (legacyFrames p k st)
  end.

(** The body the earlier callback pins to the axis: the one of the colour
    of the Sun in the heliocentric frame, of the colour of Earth in the
    geocentric frame. *)
Definition legacyAnchor (p : Legacy.Props) : bool :=
  if Legacy.isHeliocentric p then String.eqb (Legacy.color p) "#FFD700"
  else String.eqb (Legacy.color p) "#4169E1".

(** * Properties *)

(** ** Vectors and the epicycle identity *)

Lemma norm_planar (x z : R) :
  norm (mkVector3 x 0 z) = sqrt (x * x + z * z).
Proof.
  unfold norm; simpl. f_equal. ring.
Qed.

Lemma sin_cos_sq (a : R) : sin a * sin a + cos a * cos a = 1.
Proof.
  generalize (sin2_cos2 a). unfold Rsqr. tauto.
Qed.

(** A deferent of radius [r] at angle [a] plus an epicycle of radius [r * f]
    at angle [b]: the squared distance from the centre depends on the phase
    difference [a - b] alone. *)
Lemma epicycle_sq (r f a b : R) :
  (cos a * r + cos b * (r * f)) * (cos a * r + cos b * (r * f))
  + (sin a * r + sin b * (r * f)) * (sin a * r + sin b * (r * f))
  = r * r * (1 + f * f + 2 * f * cos (a - b)).
Proof.
  rewrite cos_minus.
  generalize (sin_cos_sq a) (sin_cos_sq b). intros Ha Hb.
  replace ((cos a * r + cos b * (r * f)) * (cos a * r + cos b * (r * f))
           + (sin a * r + sin b * (r * f)) * (sin a * r + sin b * (r * f)))
    with (r * r * ((sin a * sin a + cos a * cos a)
                   + f * f * (sin b * sin b + cos b * cos b)
                   + 2 * f * (cos a * cos b + sin a * sin b))) by ring.
  rewrite Ha, Hb. ring.
Qed.

Lemma sqrt_between (lo hi s : R) :
  0 <= lo -> lo * lo <= s -> s <= hi * hi -> 0 <= hi ->
  lo <= sqrt s <= hi.
Proof.
  intros Hlo H1 H2 Hhi. split.
  - rewrite <- (sqrt_square lo) by assumption.
    apply sqrt_le_1_alt. assumption.
  - rewrite <- (sqrt_square hi) by assumption.
    apply sqrt_le_1_alt. assumption.
Qed.

(** The distance of deferent plus epicycle from the centre. *)
Lemma epicycle_norm_bounds (r f a b : R) :
  0 <= r -> 0 <= f <= 1 ->
  r * (1 - f)
  <= norm (mkVector3 (cos a * r + cos b * (r * f)) 0
                     (sin a * r + sin b * (r * f)))
  <= r * (1 + f).
Proof.
  intros Hr Hf. rewrite norm_planar, epicycle_sq.
  generalize (COS_bound (a - b)). intros [Hc1 Hc2].
  assert (Hrr : 0 <= r * r) by nra.
  apply sqrt_between; try nra.
  - replace (r * (1 - f) * (r * (1 - f)))
      with (r * r * (1 + f * f - 2 * f)) by ring.
    apply Rmult_le_compat_l; nra.
  - replace (r * (1 + f) * (r * (1 + f)))
      with (r * r * (1 + f * f + 2 * f)) by ring.
    apply Rmult_le_compat_l; nra.
Qed.

(** The distance is the deferent radius exactly when the phase difference
    has cosine [- f / 2]. *)
Lemma epicycle_norm_eq_radius (r f a b : R) :
  0 < r -> 0 < f ->
  norm (mkVector3 (cos a * r + cos b * (r * f)) 0
                  (sin a * r + sin b * (r * f))) = r
  <-> cos (a - b) = - f / 2.
Proof.
  intros Hr Hf. rewrite norm_planar, epicycle_sq. split.
  - intros H.
    assert (Hsq : r * r * (1 + f * f + 2 * f * cos (a - b)) = r * r).
    { assert (Hpos : 0 <= r * r * (1 + f * f + 2 * f * cos (a - b))).
      { generalize (COS_bound (a - b)). intros [Hc1 Hc2].
        assert (Hfc : 0 <= f * (cos (a - b) + 1)) by (apply Rmult_le_pos; lra).
        assert (Hsq : 0 <= (1 - f) * (1 - f)) by apply Rle_0_sqr.
        apply Rmult_le_pos; [apply Rle_0_sqr | lra]. }
      generalize (sqrt_sqrt _ Hpos). rewrite H. intros Hs. symmetry. exact Hs. }
    assert (Hz : r * r * (f * (f + 2 * cos (a - b))) = 0) by lra.
    apply Rmult_integral in Hz. destruct Hz as [Hz | Hz]; [nra|].
    apply Rmult_integral in Hz. destruct Hz as [Hz | Hz]; lra.
  - intros H. rewrite H.
    replace (r * r * (1 + f * f + 2 * f * (- f / 2))) with (r * r) by field.
    apply sqrt_square. lra.
Qed.

(** ** The per-frame callback *)

Lemma useFrame_attached (p : PlanetProps) (st : PlanetState) (rf : Refs) :
  refs st = Some rf ->
  exists rf', refs (useFrame p st) = Some rf'
              /\ angle (useFrame p st) = angle st + orbitSpeed p.
Proof.
  intros H. unfold useFrame. rewrite H. simpl. eexists. split; reflexivity.
Qed.

Lemma useFrame_circular (p : PlanetProps) (st : PlanetState) (rf : Refs) :
  refs st = Some rf -> 0 < orbitRadius p ->
  isHeliocentric p || isExempt (name p) = true ->
  evaluate p st
  = (angle st + orbitSpeed p,
     Some (mkVector3 (cos (angle st + orbitSpeed p) * orbitRadius p)
                     (vy (groupPosition rf))
                     (sin (angle st + orbitSpeed p) * orbitRadius p))).
Proof.
  intros H Hr Hc. unfold evaluate, useFrame. rewrite H, Hc.
  destruct (Rlt_dec 0 (orbitRadius p)) as [_ | Hn]; [reflexivity | contradiction].
Qed.

Lemma useFrame_epicyclic (p : PlanetProps) (st : PlanetState) (rf : Refs) :
  refs st = Some rf -> 0 < orbitRadius p ->
  isHeliocentric p = false -> isExempt (name p) = false ->
  evaluate p st
  = (angle st + orbitSpeed p,
     Some (mkVector3
             (cos (angle st + orbitSpeed p) * orbitRadius p
              + cos (- (angle st + orbitSpeed p) * 1.5) * (orbitRadius p * 0.05))
             (vy (groupPosition rf))
             (sin (angle st + orbitSpeed p) * orbitRadius p
              + sin (- (angle st + orbitSpeed p) * 1.5) * (orbitRadius p * 0.05)))).
Proof.
  intros H Hr Hh He. unfold evaluate, useFrame. rewrite H, Hh, He.
  destruct (Rlt_dec 0 (orbitRadius p)) as [_ | Hn]; [reflexivity | contradiction].
Qed.

Lemma useFrame_fixed (p : PlanetProps) (st : PlanetState) (rf : Refs) :
  refs st = Some rf -> ~ 0 < orbitRadius p ->
  evaluate p st = (angle st + orbitSpeed p, Some (position p)).
Proof.
  intros H Hr. unfold evaluate, useFrame. rewrite H.
  destruct (Rlt_dec 0 (orbitRadius p)) as [Hp | _]; [contradiction | reflexivity].
Qed.

(** The orbital plane is kept: a mounted orbiting body starts at height zero
    and no tick changes the height. *)
Lemma inPlane_mount (p : PlanetProps) : inPlane (orbitRadius p) (mount p).
Proof.
  unfold inPlane, mount, groupProp. simpl. eexists. split; [reflexivity|].
  intros Hr. simpl.
  destruct (Rlt_dec 0 (orbitRadius p)); [reflexivity | contradiction].
Qed.

Lemma inPlane_useFrame (p : PlanetProps) (st : PlanetState) :
  inPlane (orbitRadius p) st -> inPlane (orbitRadius p) (useFrame p st).
Proof.
  intros [rf [H Hy]]. unfold inPlane, useFrame. rewrite H.
  eexists. split; [reflexivity|]. intros Hr. simpl.
  destruct (Rlt_dec 0 (orbitRadius p)); [|contradiction].
  destruct (isHeliocentric p || isExempt (name p)); simpl; auto.
Qed.

(** ** Truncated series for the two scenario values *)

Lemma cos_taylor (a : R) :
  - PI / 2 <= a -> a <= PI / 2 ->
  1 - a * a / 2 <= cos a <= 1 - a * a / 2 + a * a * a * a / 24.
Proof.
  intros H1 H2. generalize (cos_bound a 0 H1 H2).
  unfold cos_approx, cos_term. simpl. intros [L U].
  split; [eapply Rle_trans; [|exact L] | eapply Rle_trans; [exact U|]]; lra.
Qed.

Lemma sin_taylor (a : R) :
  0 <= a -> a <= PI ->
  a - a * a * a / 6 <= sin a <= a - a * a * a / 6 + a * a * a * a * a / 120.
Proof.
  intros H1 H2. generalize (sin_bound a 0 H1 H2).
  unfold sin_approx, sin_term. simpl. intros [L U].
  split; [eapply Rle_trans; [|exact L] | eapply Rle_trans; [exact U|]]; lra.
Qed.

Lemma PI_gt_3 : 3 < PI.
Proof. generalize PI2_3_2. lra. Qed.

Lemma cos_0029 : 0.9995795 <= cos 0.029 <= 0.9995796.
Proof.
  generalize PI_gt_3. intros Hpi.
  destruct (cos_taylor 0.029) as [L U]; lra.
Qed.

Lemma sin_0029 : 0.0289959 <= sin 0.029 <= 0.0289960.
Proof.
  generalize PI_gt_3. intros Hpi.
  destruct (sin_taylor 0.029) as [L U]; lra.
Qed.

(** ** The example bodies are the ones the scene renders *)

Lemma render_examples :
  SolarSystem.render false Jupiter = TrailElement jupiterGeocentric
  /\ SolarSystem.render true Earth = PlanetElement earthHeliocentric
  /\ SolarSystem.render true Sun = PlanetElement sunHeliocentric
  /\ SolarSystem.render false Sun = TrailElement sunGeocentric.
Proof. repeat split. Qed.

Lemma mount_refs (p : PlanetProps) :
  refs (mount p) = Some (mkRefs (groupProp p) 0 0).
Proof. reflexivity. Qed.

Lemma groupProp_orbiting (p : PlanetProps) :
  0 < orbitRadius p -> groupProp p = mkVector3 (orbitRadius p) 0 0.
Proof.
  intros H. unfold groupProp.
  destruct (Rlt_dec 0 (orbitRadius p)); [reflexivity | contradiction].
Qed.

(** ** C1: the geocentric branch *)

(** C1, as the code has it: for a geocentric, non-exempt body of radius
    [r > 0] in its orbital plane, a tick stores [a = angle + speed] and
    places the body at deferent plus epicycle,
    [(r cos a + 0.05 r cos (-1.5 a), 0, r sin a + 0.05 r sin (-1.5 a))]:
    the epicycle radius of the live body is [0.05 * r]. *)
Theorem geocentric_position (p : PlanetProps) (st : PlanetState) :
  0 < orbitRadius p ->
  isHeliocentric p = false ->
  isExempt (name p) = false ->
  inPlane (orbitRadius p) st ->
  let a := angle st + orbitSpeed p in
  let r := orbitRadius p in
  evaluate p st
  = (a, Some (mkVector3 (r * cos a + 0.05 * r * cos (-1.5 * a)) 0
                        (r * sin a + 0.05 * r * sin (-1.5 * a)))).
Proof.
  intros Hr Hh He [rf [Hrf Hy]] a r.
  rewrite (useFrame_epicyclic p st rf Hrf Hr Hh He).
  rewrite (Hy Hr). fold a r.
  replace (- a * 1.5) with (-1.5 * a) by lra.
  f_equal. f_equal. f_equal; ring.
Qed.

Lemma geocentric_position_witness :
  evaluate jupiterGeocentric (mount jupiterGeocentric)
  = (0 + 0.013,
     Some (mkVector3 (52 * cos (0 + 0.013) + 0.05 * 52 * cos (-1.5 * (0 + 0.013))) 0
                     (52 * sin (0 + 0.013) + 0.05 * 52 * sin (-1.5 * (0 + 0.013))))).
Proof.
  apply (geocentric_position jupiterGeocentric (mount jupiterGeocentric)).
  - simpl. lra.
  - reflexivity.
  - reflexivity.
  - apply inPlane_mount.
Defined.

(** C1, as stated, fails for Jupiter on its first geocentric tick: the
    evaluator does not return the point with epicycle radius [0.1 * r]. *)
Lemma geocentric_position_not_tenth :
  evaluate jupiterGeocentric (mount jupiterGeocentric)
  <> (0 + 0.013,
      Some (mkVector3 (52 * cos (0 + 0.013) + 0.1 * 52 * cos (-1.5 * (0 + 0.013))) 0
                      (52 * sin (0 + 0.013) + 0.1 * 52 * sin (-1.5 * (0 + 0.013))))).
Proof.
  assert (Hr : 0 < orbitRadius jupiterGeocentric) by (simpl; lra).
  rewrite (useFrame_epicyclic jupiterGeocentric (mount jupiterGeocentric) _
             (mount_refs _) Hr eq_refl eq_refl).
  cbn [angle mount orbitSpeed orbitRadius jupiterGeocentric].
  intros H. injection H as Hx _ _.
  replace (- (0 + 0.013) * 1.5) with (-1.5 * (0 + 0.013)) in Hx by lra.
  assert (Hc : 0 < cos (-1.5 * (0 + 0.013))).
  { generalize PI_gt_3. intros Hpi. apply cos_gt_0; lra. }
  lra.
Qed.

(** ** C2: one heliocentric tick of a body of radius 10 and speed 0.029 *)

(** C2, with the abscissa the code computes: from angle 0 one heliocentric
    tick of a body with radius 10 and speed 0.029 stores the angle 0.029 and
    places the body at [(10 cos 0.029, 0, 10 sin 0.029)], which is
    [(9.9958, 0, 0.2899)] to within [0.0001]. *)
Theorem heliocentric_tick_scenario (p : PlanetProps) (st : PlanetState) :
  orbitRadius p = 10 ->
  orbitSpeed p = 0.029 ->
  isHeliocentric p = true ->
  angle st = 0 ->
  inPlane 10 st ->
  exists x z,
    evaluate p st = (0.029, Some (mkVector3 x 0 z))
    /\ x = 10 * cos 0.029 /\ z = 10 * sin 0.029
    /\ Rabs (x - 9.9958) < 0.0001
    /\ Rabs (z - 0.2899) < 0.0001.
Proof.
  intros Hr Hs Hh Ha [rf [Hrf Hy]].
  assert (Hpos : 0 < orbitRadius p) by (rewrite Hr; lra).
  assert (Hc : isHeliocentric p || isExempt (name p) = true)
    by (rewrite Hh; reflexivity).
  exists (10 * cos 0.029), (10 * sin 0.029).
  rewrite (useFrame_circular p st rf Hrf Hpos Hc).
  rewrite Hr, Hs, Ha, Hy by lra.
  replace (0 + 0.029) with 0.029 by lra.
  generalize cos_0029 sin_0029. intros [c1 c2] [s1 s2].
  repeat split.
  - f_equal. f_equal. f_equal; ring.
  - apply Rabs_def1; lra.
  - apply Rabs_def1; lra.
Qed.

Lemma heliocentric_tick_scenario_witness :
  exists x z,
    evaluate earthHeliocentric (mount earthHeliocentric)
    = (0.029, Some (mkVector3 x 0 z))
    /\ x = 10 * cos 0.029 /\ z = 10 * sin 0.029
    /\ Rabs (x - 9.9958) < 0.0001
    /\ Rabs (z - 0.2899) < 0.0001.
Proof.
  apply (heliocentric_tick_scenario earthHeliocentric (mount earthHeliocentric)).
  - reflexivity.
  - reflexivity.
  - reflexivity.
  - reflexivity.
  - apply (inPlane_mount earthHeliocentric).
Defined.

(** C2, as stated, fails on Earth's first heliocentric tick: the abscissa
    of the position is more than [0.003] away from [9.9996]. *)
Lemma heliocentric_tick_not_9_9996 :
  exists v,
    evaluate earthHeliocentric (mount earthHeliocentric) = (0 + 0.029, Some v)
    /\ 0.003 < Rabs (vx v - 9.9996).
Proof.
  assert (Hr : 0 < orbitRadius earthHeliocentric) by (simpl; lra).
  eexists. split.
  - apply (useFrame_circular earthHeliocentric (mount earthHeliocentric) _
             (mount_refs _) Hr eq_refl).
  - cbn [vx angle mount orbitSpeed orbitRadius earthHeliocentric].
    replace (0 + 0.029) with 0.029 by lra.
    generalize cos_0029. intros [c1 c2].
    rewrite Rabs_left; lra.
Qed.

(** ** C3: the ring curve is closed *)

Lemma cos_4PI_shift (x : R) : cos (x + 4 * PI) = cos x.
Proof.
  replace (x + 4 * PI) with (x + 2 * INR 2 * PI) by (simpl; ring).
  apply cos_period.
Qed.

Lemma sin_4PI_shift (x : R) : sin (x + 4 * PI) = sin x.
Proof.
  replace (x + 4 * PI) with (x + 2 * INR 2 * PI) by (simpl; ring).
  apply sin_period.
Qed.

Lemma getPoint_start (r : R) :
  RetrogradeCurve.getPoint (ringCurve r) 0 = mkVector3 (r + r * 0.1) 0 0.
Proof.
  unfold RetrogradeCurve.getPoint, ringCurve. simpl.
  replace (0 * PI * 2) with 0 by ring.
  replace (- (2) * 0) with 0 by ring.
  rewrite cos_0, sin_0. f_equal; ring.
Qed.

Lemma getPoint_end (r : R) :
  RetrogradeCurve.getPoint (ringCurve r) 1 = mkVector3 (r + r * 0.1) 0 0.
Proof.
  unfold RetrogradeCurve.getPoint, ringCurve. simpl.
  replace (1 * PI * 2) with (2 * PI) by ring.
  replace (- (2) * (2 * PI)) with (- (0 + 4 * PI)) by ring.
  rewrite cos_neg, sin_neg, cos_4PI_shift, sin_4PI_shift.
  rewrite cos_2PI, sin_2PI, cos_0, sin_0. f_equal; ring.
Qed.

Lemma getPoint_planar (c : RetrogradeCurve.t) (t : R) :
  vy (RetrogradeCurve.getPoint c t) = 0.
Proof. reflexivity. Qed.

(** The curve is symmetric about the x axis: the parameter [1 - t] gives
    the mirror image of the point at [t]. *)
Lemma getPoint_mirror (r t : R) :
  RetrogradeCurve.getPoint (ringCurve r) (1 - t)
  = mkVector3 (vx (RetrogradeCurve.getPoint (ringCurve r) t)) 0
              (- vz (RetrogradeCurve.getPoint (ringCurve r) t)).
Proof.
  unfold RetrogradeCurve.getPoint, ringCurve. simpl.
  set (a := t * PI * 2).
  replace ((1 - t) * PI * 2) with (- a + 2 * PI) by (unfold a; ring).
  replace (- (2) * (- a + 2 * PI)) with (- (- (2 * a) + 4 * PI)) by ring.
  replace (- (2) * a) with (- (2 * a)) by ring.
  rewrite (cos_neg (- (2 * a) + 4 * PI)), (sin_neg (- (2 * a) + 4 * PI)).
  rewrite cos_4PI_shift, sin_4PI_shift.
  replace (- a + 2 * PI) with (- a + 2 * INR 1 * PI) by (simpl; ring).
  rewrite cos_period, sin_period.
  rewrite !cos_neg, !sin_neg. f_equal; ring.
Qed.

(** C3: the ring curve [new RetrogradeCurve(radius, 0.1, 2)] is closed:
    for every radius [getPoint(0) = getPoint(1)]; for radius 52 both are
    [(57.2, 0, 0)]; and of 100 uniform samples the last one is exactly as far
    from the first as the second one is, so the closing segment is one
    ordinary segment step. *)
Theorem retrograde_curve_closed :
  (forall r,
      RetrogradeCurve.getPoint (ringCurve r) 0
      = RetrogradeCurve.getPoint (ringCurve r) 1)
  /\ RetrogradeCurve.getPoint (ringCurve 52) 0 = mkVector3 57.2 0 0
  /\ RetrogradeCurve.getPoint (ringCurve 52) 1 = mkVector3 57.2 0 0
  /\ (forall r,
         distanceTo (uniformSample (ringCurve r) 100 99)
                    (uniformSample (ringCurve r) 100 0)
         = distanceTo (uniformSample (ringCurve r) 100 1)
                      (uniformSample (ringCurve r) 100 0)).
Proof.
  split; [|split; [|split]].
  - intros r. rewrite getPoint_start, getPoint_end. reflexivity.
  - rewrite getPoint_start. f_equal. lra.
  - rewrite getPoint_end. f_equal. lra.
  - intros r. unfold uniformSample.
    replace (INR 99 / INR 100) with (1 - INR 1 / INR 100)
      by (rewrite !INR_IZR_INZ; simpl; lra).
    replace (INR 0 / INR 100) with 0
      by (rewrite !INR_IZR_INZ; simpl; lra).
    rewrite getPoint_mirror, getPoint_start.
    unfold distanceTo, norm. cbn [vx vy vz].
    rewrite getPoint_planar. f_equal. ring.
Qed.

(** ** C4: the distance from the centre under deferent plus epicycle *)

(** C4: with [r > 0], every point of the ring curve and every position the
    geocentric branch gives a non-exempt body in its orbital plane lies
    between [r (1 - 0.1)] and [r (1 + 0.1)] from the origin (the live body,
    whose epicycle is [0.05 r], even between [0.95 r] and [1.05 r]); the
    distance is exactly [r] only at the phases where the cosine of the
    angle between deferent and epicycle arm is minus half the amplitude
    fraction. *)
Theorem epicycle_distance_bounds
        (r t : R) (p : PlanetProps) (st : PlanetState) :
  0 < r ->
  0 < orbitRadius p ->
  isHeliocentric p = false ->
  isExempt (name p) = false ->
  inPlane (orbitRadius p) st ->
  (r * (1 - 0.1) <= norm (RetrogradeCurve.getPoint (ringCurve r) t) <= r * (1 + 0.1)
   /\ (norm (RetrogradeCurve.getPoint (ringCurve r) t) = r
       <-> cos (3 * (t * PI * 2)) = - 0.05))
  /\ exists v,
      evaluate p st = (angle st + orbitSpeed p, Some v)
      /\ orbitRadius p * (1 - 0.1) <= norm v <= orbitRadius p * (1 + 0.1)
      /\ orbitRadius p * (1 - 0.05) <= norm v <= orbitRadius p * (1 + 0.05)
      /\ (norm v = orbitRadius p
          <-> cos (2.5 * (angle st + orbitSpeed p)) = - 0.025).
Proof.
  intros Hr Hp Hh He [rf [Hrf Hy]]. split.
  - unfold RetrogradeCurve.getPoint, ringCurve. simpl. split.
    + apply epicycle_norm_bounds; lra.
    + generalize (epicycle_norm_eq_radius r 0.1 (t * PI * 2) (- (2) * (t * PI * 2))
                    Hr ltac:(lra)).
      replace (t * PI * 2 - - (2) * (t * PI * 2)) with (3 * (t * PI * 2)) by ring.
      intros Hiff. assert (E : - (0.1) / 2 = - 0.05) by lra.
      rewrite E in Hiff. exact Hiff.
  - eexists. split.
    + apply (useFrame_epicyclic p st rf Hrf Hp Hh He).
    + rewrite (Hy Hp). set (a := angle st + orbitSpeed p).
      generalize (epicycle_norm_bounds (orbitRadius p) 0.05 a (- a * 1.5)).
      intros Hb. split; [|split].
      * assert (Hb' := Hb ltac:(lra) ltac:(lra)). lra.
      * apply Hb; lra.
      * generalize (epicycle_norm_eq_radius (orbitRadius p) 0.05 a (- a * 1.5)
                      Hp ltac:(lra)).
        replace (a - - a * 1.5) with (2.5 * a) by lra.
        intros Hiff. assert (E : - (0.05) / 2 = - 0.025) by lra.
        rewrite E in Hiff. exact Hiff.
Qed.

Lemma epicycle_distance_bounds_witness :
  (52 * (1 - 0.1) <= norm (RetrogradeCurve.getPoint (ringCurve 52) 0.25)
                  <= 52 * (1 + 0.1)
   /\ (norm (RetrogradeCurve.getPoint (ringCurve 52) 0.25) = 52
       <-> cos (3 * (0.25 * PI * 2)) = - 0.05))
  /\ exists v,
      evaluate jupiterGeocentric (mount jupiterGeocentric)
      = (angle (mount jupiterGeocentric) + orbitSpeed jupiterGeocentric, Some v)
      /\ orbitRadius jupiterGeocentric * (1 - 0.1) <= norm v
         <= orbitRadius jupiterGeocentric * (1 + 0.1)
      /\ orbitRadius jupiterGeocentric * (1 - 0.05) <= norm v
         <= orbitRadius jupiterGeocentric * (1 + 0.05)
      /\ (norm v = orbitRadius jupiterGeocentric
          <-> cos (2.5 * (angle (mount jupiterGeocentric)
                          + orbitSpeed jupiterGeocentric)) = - 0.025).
Proof.
  apply (epicycle_distance_bounds 52 0.25 jupiterGeocentric (mount jupiterGeocentric)).
  - lra.
  - simpl. lra.
  - reflexivity.
  - reflexivity.
  - apply inPlane_mount.
Defined.

(** ** C5: the heliocentric circle *)

Lemma circle_norm (r a : R) :
  0 <= r -> norm (mkVector3 (r * cos a) 0 (r * sin a)) = r.
Proof.
  intros Hr. rewrite norm_planar.
  replace (r * cos a * (r * cos a) + r * sin a * (r * sin a))
    with (r * r * (sin a * sin a + cos a * cos a)) by ring.
  rewrite sin_cos_sq, Rmult_1_r. apply sqrt_square. assumption.
Qed.

(** C5: in the heliocentric frame a body of radius [r > 0] in its orbital
    plane is placed at [(r cos a, 0, r sin a)], [a] being the angle the tick
    stores; that point has height 0 and is at distance exactly [r] from the
    origin. *)
Theorem heliocentric_circle (p : PlanetProps) (st : PlanetState) :
  0 < orbitRadius p ->
  isHeliocentric p = true ->
  inPlane (orbitRadius p) st ->
  let a := angle st + orbitSpeed p in
  let r := orbitRadius p in
  evaluate p st = (a, Some (mkVector3 (r * cos a) 0 (r * sin a)))
  /\ vy (mkVector3 (r * cos a) 0 (r * sin a)) = 0
  /\ norm (mkVector3 (r * cos a) 0 (r * sin a)) = r.
Proof.
  intros Hr Hh [rf [Hrf Hy]] a r.
  assert (Hc : isHeliocentric p || isExempt (name p) = true)
    by (rewrite Hh; reflexivity).
  split; [|split].
  - rewrite (useFrame_circular p st rf Hrf Hr Hc), (Hy Hr). fold a r.
    f_equal. f_equal. f_equal; ring.
  - reflexivity.
  - apply circle_norm. unfold r. lra.
Qed.

Lemma heliocentric_circle_witness :
  evaluate earthHeliocentric (mount earthHeliocentric)
  = (0 + 0.029, Some (mkVector3 (10 * cos (0 + 0.029)) 0 (10 * sin (0 + 0.029))))
  /\ vy (mkVector3 (10 * cos (0 + 0.029)) 0 (10 * sin (0 + 0.029))) = 0
  /\ norm (mkVector3 (10 * cos (0 + 0.029)) 0 (10 * sin (0 + 0.029))) = 10.
Proof.
  apply (heliocentric_circle earthHeliocentric (mount earthHeliocentric)).
  - simpl. lra.
  - reflexivity.
  - apply inPlane_mount.
Defined.

(** ** C6: Earth and Moon do not depend on the frame *)

(** C6: for a body named Earth or Moon, a tick from the same state with
    the same radius, speed and fixed position gives the same state (hence
    the same new angle and the same position) under both frames. *)
Theorem exempt_frame_invariance (p : PlanetProps) (st : PlanetState) :
  name p = "Earth"%string \/ name p = "Moon"%string ->
  useFrame (withFrame p true) st = useFrame (withFrame p false) st
  /\ evaluate (withFrame p true) st = evaluate (withFrame p false) st.
Proof.
  intros Hn.
  assert (He : isExempt (name p) = true).
  { unfold isExempt. destruct Hn as [Hn | Hn]; rewrite Hn; reflexivity. }
  assert (Hu : useFrame (withFrame p true) st = useFrame (withFrame p false) st).
  { unfold useFrame, withFrame. cbn [isHeliocentric orbitRadius orbitSpeed name position].
    rewrite He. reflexivity. }
  split; [exact Hu|]. unfold evaluate. rewrite Hu. reflexivity.
Qed.

Lemma exempt_frame_invariance_witness :
  useFrame (withFrame earthHeliocentric true) (mount earthHeliocentric)
  = useFrame (withFrame earthHeliocentric false) (mount earthHeliocentric)
  /\ evaluate (withFrame earthHeliocentric true) (mount earthHeliocentric)
     = evaluate (withFrame earthHeliocentric false) (mount earthHeliocentric).
Proof.
  apply (exempt_frame_invariance earthHeliocentric (mount earthHeliocentric)).
  left. reflexivity.
Defined.

(** ** C7: a body without an orbit *)

(** C7: a mounted body of orbital radius 0 is placed at its configured
    fixed position whatever the stored angle and under either frame, and
    the stored angle advances by the speed of the body. *)
Theorem fixed_body_position
        (p : PlanetProps) (st : PlanetState) (rf : Refs) (h : bool) :
  orbitRadius p = 0 ->
  refs st = Some rf ->
  evaluate (withFrame p h) st = (angle st + orbitSpeed p, Some (position p)).
Proof.
  intros Hr Hrf.
  apply (useFrame_fixed (withFrame p h) st rf Hrf).
  cbn [withFrame orbitRadius]. rewrite Hr. lra.
Qed.

Lemma fixed_body_position_witness :
  evaluate (withFrame sunHeliocentric false) (mount sunHeliocentric)
  = (angle (mount sunHeliocentric) + orbitSpeed sunHeliocentric,
     Some (position sunHeliocentric)).
Proof.
  apply (fixed_body_position sunHeliocentric (mount sunHeliocentric)
           (mkRefs (groupProp sunHeliocentric) 0 0) false).
  - reflexivity.
  - reflexivity.
Defined.

(** ** C10: the Sun in the geocentric frame *)

(** C10: in the geocentric frame the Sun is rendered with orbit radius 30
    under a name that is not exempt, and a tick of the mounted Sun applies
    deferent plus epicycle to it: with [a] the angle the tick stores, the
    Sun is placed at
    [(30 cos a + 0.05 * 30 cos (-1.5 a), 0, 30 sin a + 0.05 * 30 sin (-1.5 a))],
    which is between [30 (1 - 0.05) = 28.5] and [30 (1 + 0.05) = 31.5] from
    the origin, never at the origin, and exactly 30 from it only when
    [cos (2.5 a) = -0.025]. *)
Theorem sun_geocentric_distance (st : PlanetState) :
  inPlane 30 st ->
  SolarSystem.render false Sun = TrailElement sunGeocentric
  /\ orbitRadius sunGeocentric = 30
  /\ isHeliocentric sunGeocentric = false
  /\ isExempt (name sunGeocentric) = false
  /\ exists v,
      evaluate sunGeocentric st = (angle st + 0.02, Some v)
      /\ v = mkVector3
               (30 * cos (angle st + 0.02)
                + 0.05 * 30 * cos (-1.5 * (angle st + 0.02)))
               0
               (30 * sin (angle st + 0.02)
                + 0.05 * 30 * sin (-1.5 * (angle st + 0.02)))
      /\ 30 * (1 - 0.05) <= norm v <= 30 * (1 + 0.05)
      /\ 28.5 <= norm v <= 31.5
      /\ v <> SolarSystem.origin
      /\ (norm v = 30 <-> cos (2.5 * (angle st + 0.02)) = - 0.025).
Proof.
  intros [rf [Hrf Hy]].
  assert (Hr : 0 < orbitRadius sunGeocentric) by (simpl; lra).
  split; [reflexivity|]. split; [reflexivity|]. split; [reflexivity|].
  split; [reflexivity|].
  eexists. split.
  - apply (useFrame_epicyclic sunGeocentric st rf Hrf Hr eq_refl eq_refl).
  - rewrite (Hy ltac:(lra)).
    cbn [orbitRadius orbitSpeed sunGeocentric].
    set (a := angle st + 0.02).
    generalize (epicycle_norm_bounds 30 0.05 a (- a * 1.5) ltac:(lra) ltac:(lra)).
    intros Hb. split; [|split; [exact Hb|split; [lra|split]]].
    + replace (- a * 1.5) with (-1.5 * a) by lra. f_equal; ring.
    + intros Habs. rewrite Habs in Hb. unfold norm, SolarSystem.origin in Hb.
      cbn [vx vy vz] in Hb.
      replace (0 * 0 + 0 * 0 + 0 * 0) with 0 in Hb by ring.
      rewrite sqrt_0 in Hb. lra.
    + generalize (epicycle_norm_eq_radius 30 0.05 a (- a * 1.5)
                    ltac:(lra) ltac:(lra)).
      replace (a - - a * 1.5) with (2.5 * a) by lra.
      intros Hiff. assert (E : - (0.05) / 2 = - 0.025) by lra.
      rewrite E in Hiff. exact Hiff.
Qed.

Lemma sun_geocentric_distance_witness :
  SolarSystem.render false Sun = TrailElement sunGeocentric
  /\ orbitRadius sunGeocentric = 30
  /\ isHeliocentric sunGeocentric = false
  /\ isExempt (name sunGeocentric) = false
  /\ exists v,
      evaluate sunGeocentric (mount sunGeocentric)
      = (angle (mount sunGeocentric) + 0.02, Some v)
      /\ v = mkVector3
               (30 * cos (angle (mount sunGeocentric) + 0.02)
                + 0.05 * 30 * cos (-1.5 * (angle (mount sunGeocentric) + 0.02)))
               0
               (30 * sin (angle (mount sunGeocentric) + 0.02)
                + 0.05 * 30 * sin (-1.5 * (angle (mount sunGeocentric) + 0.02)))
      /\ 30 * (1 - 0.05) <= norm v <= 30 * (1 + 0.05)
      /\ 28.5 <= norm v <= 31.5
      /\ v <> SolarSystem.origin
      /\ (norm v = 30
          <-> cos (2.5 * (angle (mount sunGeocentric) + 0.02)) = - 0.025).
Proof.
  apply (sun_geocentric_distance (mount sunGeocentric)).
  apply (inPlane_mount sunGeocentric).
Defined.

(** ** C8: the toggle and the stored angles *)

Lemma update_angle (old new : PlanetProps) (st : PlanetState) :
  angle (SolarSystem.update old new st) = angle st.
Proof.
  unfold SolarSystem.update.
  destruct (SolarSystem.Vector3_eqb (groupProp old) (groupProp new)); reflexivity.
Qed.

Lemma reconcile_same_type_angle (p q : PlanetProps) (inst : option PlanetState) :
  option_map angle
    (SolarSystem.reconcile (PlanetElement p) (PlanetElement q) inst)
  = option_map angle inst.
Proof.
  destruct inst as [st|]; simpl; [|reflexivity].
  rewrite update_angle. reflexivity.
Qed.

(** C8, as the code has it: a click on the toggle replaces the frame flag
    by its negation (and with it flips the camera trigger and clears the
    selection); the handler itself writes no planet, and through the render
    that follows, Earth and Moon, whose elements keep their place and type
    in the scene, keep their stored angles. *)
Theorem toggle_keeps_exempt_angles (s : SolarSystem.State) :
  SolarSystem.isHeliocentric (SolarSystem.toggle s)
  = negb (SolarSystem.isHeliocentric s)
  /\ SolarSystem.animTrigger (SolarSystem.toggle s)
     = negb (SolarSystem.animTrigger s)
  /\ SolarSystem.selectedObjectInfo (SolarSystem.toggle s) = None
  /\ SolarSystem.planets (SolarSystem.onClick s) = SolarSystem.planets s
  /\ SolarSystem.angleOf (SolarSystem.toggle s) Earth = SolarSystem.angleOf s Earth
  /\ SolarSystem.angleOf (SolarSystem.toggle s) Moon = SolarSystem.angleOf s Moon.
Proof.
  repeat split.
  - unfold SolarSystem.angleOf, SolarSystem.toggle, SolarSystem.commit,
      SolarSystem.onClick.
    cbn [SolarSystem.planets SolarSystem.isHeliocentric SolarSystem.render].
    apply reconcile_same_type_angle.
  - unfold SolarSystem.angleOf, SolarSystem.toggle, SolarSystem.commit,
      SolarSystem.onClick.
    cbn [SolarSystem.planets SolarSystem.isHeliocentric SolarSystem.render].
    apply reconcile_same_type_angle.
Qed.

(** C8, as stated, fails after the first rendered frame: Mercury has the
    stored angle [0 + 0.047]; the click renders it inside a [Trail] where a
    bare [Planet] stood, so a new [Planet] is mounted and the stored angle
    is 0 again.  The click also changes the camera trigger, not the frame
    value alone. *)
Lemma toggle_resets_mercury :
  SolarSystem.angleOf (SolarSystem.tick SolarSystem.init) Mercury
  = Some (0 + 0.047)
  /\ SolarSystem.angleOf (SolarSystem.toggle (SolarSystem.tick SolarSystem.init))
                         Mercury
     = Some 0
  /\ SolarSystem.angleOf (SolarSystem.toggle (SolarSystem.tick SolarSystem.init))
                         Mercury
     <> SolarSystem.angleOf (SolarSystem.tick SolarSystem.init) Mercury
  /\ SolarSystem.animTrigger (SolarSystem.toggle (SolarSystem.tick SolarSystem.init))
     <> SolarSystem.animTrigger (SolarSystem.tick SolarSystem.init).
Proof.
  assert (H1 : SolarSystem.angleOf (SolarSystem.tick SolarSystem.init) Mercury
               = Some (0 + 0.047)) by reflexivity.
  assert (H2 : SolarSystem.angleOf
                 (SolarSystem.toggle (SolarSystem.tick SolarSystem.init)) Mercury
               = Some 0) by reflexivity.
  split; [exact H1|]. split; [exact H2|]. split.
  - rewrite H1, H2. intros H. injection H as H. lra.
  - simpl. discriminate.
Qed.

(** ** The scene keeps every body mounted and in its orbital plane *)

Lemma inPlane_update_same (p q : PlanetProps) (st : PlanetState) :
  orbitRadius q = orbitRadius p ->
  groupProp q = groupProp p ->
  inPlane (orbitRadius p) st ->
  inPlane (orbitRadius q) (SolarSystem.update p q st).
Proof.
  intros Hr Hg H. unfold SolarSystem.update. rewrite Hg, Hr.
  unfold SolarSystem.Vector3_eqb.
  destruct (Req_EM_T (vx (groupProp p)) (vx (groupProp p))); [|congruence].
  destruct (Req_EM_T (vy (groupProp p)) (vy (groupProp p))); [|congruence].
  destruct (Req_EM_T (vz (groupProp p)) (vz (groupProp p))); [|congruence].
  exact H.
Qed.

Lemma inPlane_update_moved (p q : PlanetProps) (st : PlanetState) :
  vx (groupProp p) <> vx (groupProp q) ->
  (exists rf, refs st = Some rf) ->
  inPlane (orbitRadius q) (SolarSystem.update p q st).
Proof.
  intros Hx [rf Hrf]. unfold SolarSystem.update, SolarSystem.Vector3_eqb.
  destruct (Req_EM_T (vx (groupProp p)) (vx (groupProp q))); [contradiction|].
  cbn [andb]. unfold inPlane. rewrite Hrf. cbn [refs option_map].
  eexists. split; [reflexivity|]. intros Hq. cbn [groupPosition].
  rewrite (groupProp_orbiting q Hq). reflexivity.
Qed.

Lemma inPlane_fixed (r : R) (st : PlanetState) :
  ~ 0 < r -> (exists rf, refs st = Some rf) -> inPlane r st.
Proof.
  intros Hr [rf Hrf]. exists rf. split; [exact Hrf | intros H; contradiction].
Qed.

Lemma update_attached (p q : PlanetProps) (st : PlanetState) :
  (exists rf, refs st = Some rf) ->
  exists rf, refs (SolarSystem.update p q st) = Some rf.
Proof.
  intros [rf Hrf]. unfold SolarSystem.update.
  destruct (SolarSystem.Vector3_eqb _ _).
  - exists rf. exact Hrf.
  - cbn [refs]. rewrite Hrf. eexists. reflexivity.
Qed.

(** In every state the scene reaches, each body the current frame renders
    is mounted with its refs attached and, when it orbits, at height zero:
    the standing assumption of the statements about a tick. *)
Lemma reachable_inPlane (s : SolarSystem.State) :
  reachable s ->
  forall b p,
    SolarSystem.propsOf (SolarSystem.render (SolarSystem.isHeliocentric s) b) = Some p ->
    exists st, SolarSystem.planets s b = Some st /\ inPlane (orbitRadius p) st.
Proof.
  induction 1 as [| s Hs IH | s Hs IH]; intros b p Hp.
  - destruct b; cbn in Hp; injection Hp as <-;
      (eexists; split; [reflexivity | apply inPlane_mount]).
  - cbn [SolarSystem.tick SolarSystem.isHeliocentric SolarSystem.planets] in *.
    rewrite Hp. destruct (IH b p Hp) as [st [Hst Hin]]. rewrite Hst.
    eexists. split; [reflexivity | apply inPlane_useFrame; exact Hin].
  - unfold SolarSystem.toggle, SolarSystem.commit, SolarSystem.onClick in *.
    cbn [SolarSystem.isHeliocentric SolarSystem.planets] in *.
    destruct (SolarSystem.isHeliocentric s) eqn:Hh;
      destruct b; cbn in Hp; try discriminate; injection Hp as <-;
      try (eexists; split; [reflexivity | apply inPlane_mount]).
    + destruct (IH Earth _ eq_refl) as [st [Hst [rf [Hrf _]]]].
      cbn [SolarSystem.render SolarSystem.reconcile]. rewrite Hst.
      eexists. split; [reflexivity|].
      apply inPlane_fixed.
      * cbn [orbitRadius negb]. lra.
      * apply update_attached. eauto.
    + destruct (IH Moon _ eq_refl) as [st [Hst Hin]].
      cbn [SolarSystem.render SolarSystem.reconcile]. rewrite Hst.
      eexists. split; [reflexivity|].
      apply inPlane_update_same; [reflexivity | reflexivity | exact Hin].
    + destruct (IH Earth _ eq_refl) as [st [Hst [rf [Hrf _]]]].
      cbn [SolarSystem.render SolarSystem.reconcile]. rewrite Hst.
      eexists. split; [reflexivity|].
      apply inPlane_update_moved; [|eauto].
      unfold groupProp. cbn [orbitRadius position negb].
      destruct (Rlt_dec 0 0) as [Ha|_]; [lra|].
      destruct (Rlt_dec 0 10) as [_|Hb]; [|lra].
      cbn [vx SolarSystem.origin]. lra.
    + destruct (IH Moon _ eq_refl) as [st [Hst Hin]].
      cbn [SolarSystem.render SolarSystem.reconcile]. rewrite Hst.
      eexists. split; [reflexivity|].
      apply inPlane_update_same; [reflexivity | reflexivity | exact Hin].
Qed.

(** * Further properties of the code *)

(** ** Consecutive frames of a planet *)

Lemma frames_attached (p : PlanetProps) (n : nat) (st : PlanetState) (rf : Refs) :
  refs st = Some rf ->
  exists rf',
    refs (frames p n st) = Some rf'
    /\ angle (frames p n st) = angle st + INR n * orbitSpeed p
    /\ meshRotationY rf' = meshRotationY rf + INR n * 0.005
    /\ glowRotationY rf' = glowRotationY rf + INR n * 0.005.
Proof.
  intros Hrf. induction n as [| n IH].
  - exists rf. simpl. repeat split; try assumption; ring.
  - destruct IH as [rf1 [H1 [Ha [Hm Hg]]]].
    cbn [frames]. unfold useFrame. rewrite H1. cbn [refs angle].
    eexists. split; [reflexivity|]. cbn [meshRotationY glowRotationY].
    rewrite Ha, Hm, Hg, S_INR. repeat split; ring.
Qed.

(** The stored angle and the spin accumulate linearly: after [n] frames of
    a mounted planet the angle has grown by [n * orbitSpeed] and both meshes
    have turned by [n * 0.005]; nothing wraps around and the refs stay
    attached. *)
Theorem frames_accumulate
        (p : PlanetProps) (n : nat) (st : PlanetState) (rf : Refs) :
  refs st = Some rf ->
  angle (frames p n st) = angle st + INR n * orbitSpeed p
  /\ option_map meshRotationY (refs (frames p n st))
     = Some (meshRotationY rf + INR n * 0.005)
  /\ option_map glowRotationY (refs (frames p n st))
     = Some (glowRotationY rf + INR n * 0.005).
Proof.
  intros Hrf. destruct (frames_attached p n st rf Hrf) as [rf' [H1 [Ha [Hm Hg]]]].
  rewrite H1. cbn [option_map]. rewrite Hm, Hg. auto.
Qed.

Lemma frames_accumulate_witness :
  angle (frames jupiterGeocentric 3 (mount jupiterGeocentric))
  = angle (mount jupiterGeocentric) + INR 3 * orbitSpeed jupiterGeocentric
  /\ option_map meshRotationY (refs (frames jupiterGeocentric 3 (mount jupiterGeocentric)))
     = Some (meshRotationY (mkRefs (groupProp jupiterGeocentric) 0 0) + INR 3 * 0.005)
  /\ option_map glowRotationY (refs (frames jupiterGeocentric 3 (mount jupiterGeocentric)))
     = Some (glowRotationY (mkRefs (groupProp jupiterGeocentric) 0 0) + INR 3 * 0.005).
Proof.
  apply (frames_accumulate jupiterGeocentric 3 (mount jupiterGeocentric)
           (mkRefs (groupProp jupiterGeocentric) 0 0)).
  reflexivity.
Defined.

Lemma frames_inPlane (p : PlanetProps) (n : nat) (st : PlanetState) :
  inPlane (orbitRadius p) st -> inPlane (orbitRadius p) (frames p n st).
Proof.
  intros H. induction n as [| n IH]; [exact H|].
  cbn [frames]. apply inPlane_useFrame. exact IH.
Qed.

(** The chord between two points of a circle. *)
Lemma circle_chord (r a b : R) :
  0 <= r ->
  distanceTo (mkVector3 (cos a * r) 0 (sin a * r))
             (mkVector3 (cos b * r) 0 (sin b * r))
  = 2 * r * Rabs (sin ((a - b) / 2)).
Proof.
  intros Hr. unfold distanceTo, norm. cbn [vx vy vz].
  replace ((cos a * r - cos b * r) * (cos a * r - cos b * r)
           + (0 - 0) * (0 - 0)
           + (sin a * r - sin b * r) * (sin a * r - sin b * r))
    with (r * r * ((cos a - cos b) * (cos a - cos b)
                   + (sin a - sin b) * (sin a - sin b))) by ring.
  rewrite form2, form4.
  set (h := sin ((a - b) / 2)). set (m := (a + b) / 2).
  replace (r * r * (-2 * h * sin m * (-2 * h * sin m)
                    + 2 * cos m * h * (2 * cos m * h)))
    with ((2 * r * h)² * (sin m * sin m + cos m * cos m))
    by (unfold Rsqr; ring).
  rewrite sin_cos_sq, Rmult_1_r, sqrt_Rsqr_abs.
  rewrite !Rabs_mult. rewrite (Rabs_right 2) by lra.
  rewrite (Rabs_right r) by lra. reflexivity.
Qed.

(** Uniform circular motion: on the circular branch (heliocentric frame,
    or Earth and Moon) every frame moves the body by the same chord
    [2 r |sin (orbitSpeed / 2)|], whatever the stored angle. *)
Theorem circular_step_length (p : PlanetProps) (st : PlanetState) :
  0 < orbitRadius p ->
  isHeliocentric p || isExempt (name p) = true ->
  inPlane (orbitRadius p) st ->
  exists v1 v2,
    snd (evaluate p st) = Some v1
    /\ snd (evaluate p (useFrame p st)) = Some v2
    /\ distanceTo v2 v1 = 2 * orbitRadius p * Rabs (sin (orbitSpeed p / 2)).
Proof.
  intros Hr Hc [rf [Hrf Hy]].
  destruct (useFrame_attached p st rf Hrf) as [rf1 [Hrf1 Ha1]].
  assert (Hy1 : vy (groupPosition rf1) = 0).
  { destruct (inPlane_useFrame p st) as [rf1' [Hrf1' Hy1']].
    - exists rf. auto.
    - rewrite Hrf1 in Hrf1'. injection Hrf1' as <-. auto. }
  do 2 eexists.
  rewrite (useFrame_circular p st rf Hrf Hr Hc).
  rewrite (useFrame_circular p (useFrame p st) rf1 Hrf1 Hr Hc).
  cbn [snd]. split; [reflexivity|]. split; [reflexivity|].
  rewrite (Hy Hr), Hy1, Ha1.
  rewrite circle_chord by lra.
  replace ((angle st + orbitSpeed p + orbitSpeed p - (angle st + orbitSpeed p)) / 2)
    with (orbitSpeed p / 2) by field.
  reflexivity.
Qed.

Lemma circular_step_length_witness :
  exists v1 v2,
    snd (evaluate earthHeliocentric (mount earthHeliocentric)) = Some v1
    /\ snd (evaluate earthHeliocentric
                     (useFrame earthHeliocentric (mount earthHeliocentric)))
       = Some v2
    /\ distanceTo v2 v1
       = 2 * orbitRadius earthHeliocentric
         * Rabs (sin (orbitSpeed earthHeliocentric / 2)).
Proof.
  apply (circular_step_length earthHeliocentric (mount earthHeliocentric)).
  - simpl. lra.
  - reflexivity.
  - apply inPlane_mount.
Defined.

(** ** The geocentric motion never runs backwards *)

Lemma Rabs_le_bounds (x b : R) : Rabs x <= b -> - b <= x <= b.
Proof.
  unfold Rabs. destruct (Rcase_abs x); lra.
Qed.

Lemma sin_le_abs (x : R) : Rabs (sin x) <= Rabs x.
Proof.
  assert (Hpos : forall y, 0 <= y -> Rabs (sin y) <= y).
  { intros y Hy. generalize PI_gt_3 (SIN_bound y). intros Hpi [Hs1 Hs2].
    destruct (Rle_lt_dec y 1) as [Hy1 | Hy1].
    - destruct (Req_dec y 0) as [-> | Hy0].
      + rewrite sin_0, Rabs_R0. lra.
      + assert (H0 : 0 < sin y) by (apply sin_gt_0; lra).
        rewrite Rabs_right by lra.
        apply Rlt_le, sin_lt_x. lra.
    - apply Rabs_le. lra. }
  destruct (Rle_lt_dec 0 x) as [Hx | Hx].
  - rewrite (Rabs_right x) by lra. apply Hpos. exact Hx.
  - rewrite (Rabs_left x) by lra.
    replace (sin x) with (- sin (- x)) by (rewrite sin_neg; ring).
    rewrite Rabs_Ropp. apply Hpos. lra.
Qed.

Lemma sin_diff_le (p q : R) : Rabs (sin p - sin q) <= Rabs (p - q).
Proof.
  rewrite form4.
  generalize (COS_bound ((p + q) / 2)) (sin_le_abs ((p - q) / 2)).
  intros [Hc1 Hc2] Hs.
  rewrite !Rabs_mult. rewrite (Rabs_right 2) by lra.
  assert (Hc : Rabs (cos ((p + q) / 2)) <= 1) by (apply Rabs_le; lra).
  assert (Hh : Rabs ((p - q) / 2) = Rabs (p - q) / 2).
  { unfold Rdiv. rewrite Rabs_mult, (Rabs_right (/ 2)) by lra. reflexivity. }
  rewrite Hh in Hs.
  generalize (Rabs_pos (cos ((p + q) / 2))) (Rabs_pos (sin ((p - q) / 2))).
  intros Hp1 Hp2. nra.
Qed.

(** The cross product of two positions of deferent plus epicycle, with
    deferent angles [a], [b] and epicycle angles [A], [B]. *)
Lemma epicycle_cross (r f a b A B : R) :
  planarCross
    (mkVector3 (cos a * r + cos A * (r * f)) 0 (sin a * r + sin A * (r * f)))
    (mkVector3 (cos b * r + cos B * (r * f)) 0 (sin b * r + sin B * (r * f)))
  = r * r * (sin (b - a) + f * (sin (b - A) - sin (a - B))
             + f * f * sin (B - A)).
Proof.
  unfold planarCross. cbn [vx vz]. rewrite !sin_minus. ring.
Qed.

Lemma sin_lower (s : R) : 0 <= s <= 1 -> 5 / 6 * s <= sin s.
Proof.
  intros [H0 H1]. generalize PI_gt_3. intros Hpi.
  destruct (sin_taylor s) as [L _]; try lra.
  assert (Hs2 : s * s <= 1) by nra.
  assert (Hs3 : s * s * s <= s) by nra.
  lra.
Qed.

(** With the constants of the live body (epicycle [0.05 r], rate [-1.5])
    and a speed of at most one radian per frame, as every body of the scene
    has, two consecutive geocentric positions always turn counter-clockwise
    about the origin: the body is never seen to move backwards. *)
Theorem geocentric_never_backwards (p : PlanetProps) (st : PlanetState) :
  0 < orbitRadius p ->
  isHeliocentric p = false ->
  isExempt (name p) = false ->
  0 < orbitSpeed p <= 1 ->
  inPlane (orbitRadius p) st ->
  exists v1 v2,
    snd (evaluate p st) = Some v1
    /\ snd (evaluate p (useFrame p st)) = Some v2
    /\ 0 < planarCross v1 v2.
Proof.
  intros Hr Hh He [Hs0 Hs1] [rf [Hrf Hy]].
  destruct (useFrame_attached p st rf Hrf) as [rf1 [Hrf1 Ha1]].
  assert (Hy1 : vy (groupPosition rf1) = 0).
  { destruct (inPlane_useFrame p st) as [rf1' [Hrf1' Hy1']].
    - exists rf. auto.
    - rewrite Hrf1 in Hrf1'. injection Hrf1' as <-. auto. }
  do 2 eexists.
  rewrite (useFrame_epicyclic p st rf Hrf Hr Hh He).
  rewrite (useFrame_epicyclic p (useFrame p st) rf1 Hrf1 Hr Hh He).
  cbn [snd]. split; [reflexivity|]. split; [reflexivity|].
  rewrite (Hy Hr), Hy1, Ha1.
  set (s := orbitSpeed p) in *. set (a := angle st + s). set (r := orbitRadius p) in *.
  rewrite epicycle_cross.
  replace (a + s - a) with s by ring.
  replace (- (a + s) * 1.5 - - a * 1.5) with (- (1.5 * s)) by lra.
  rewrite sin_neg.
  generalize (sin_diff_le (a + s - - a * 1.5) (a - - (a + s) * 1.5)).
  replace (a + s - - a * 1.5 - (a - - (a + s) * 1.5)) with (- (0.5 * s)) by lra.
  rewrite Rabs_Ropp, (Rabs_right (0.5 * s)) by lra.
  intros Hd. apply Rabs_le_bounds in Hd.
  generalize (sin_le_abs (1.5 * s)). rewrite (Rabs_right (1.5 * s)) by lra.
  intros Hm. apply Rabs_le_bounds in Hm.
  generalize (sin_lower s ltac:(lra)). intros Hl.
  apply Rmult_lt_0_compat; [nra|]. lra.
Qed.

Lemma geocentric_never_backwards_witness :
  exists v1 v2,
    snd (evaluate jupiterGeocentric (mount jupiterGeocentric)) = Some v1
    /\ snd (evaluate jupiterGeocentric
                     (useFrame jupiterGeocentric (mount jupiterGeocentric)))
       = Some v2
    /\ 0 < planarCross v1 v2.
Proof.
  apply (geocentric_never_backwards jupiterGeocentric (mount jupiterGeocentric)).
  - simpl. lra.
  - reflexivity.
  - reflexivity.
  - simpl. lra.
  - apply inPlane_mount.
Defined.

(** ** The shape of the retrograde curve *)

Lemma cos_2PI_back (x : R) : cos (x - 2 * PI) = cos x.
Proof.
  rewrite <- (cos_period (x - 2 * PI) 1). f_equal. simpl. ring.
Qed.

Lemma sin_2PI_back (x : R) : sin (x - 2 * PI) = sin x.
Proof.
  rewrite <- (sin_period (x - 2 * PI) 1). f_equal. simpl. ring.
Qed.

(** With a whole number for [speedMultiplier] the curve is periodic in its
    parameter with period 1, at every parameter value and for every radius
    and amplitude; the ring curve, whose multiplier is 2, is one of these. *)
Theorem getPoint_periodic (r f t : R) (k : nat) :
  RetrogradeCurve.getPoint (RetrogradeCurve.new r f (INR k)) (t + 1)
  = RetrogradeCurve.getPoint (RetrogradeCurve.new r f (INR k)) t
  /\ RetrogradeCurve.getPoint (ringCurve r) (t + 1)
     = RetrogradeCurve.getPoint (ringCurve r) t.
Proof.
  assert (H : forall g j,
             RetrogradeCurve.getPoint (RetrogradeCurve.new r g (INR j)) (t + 1)
             = RetrogradeCurve.getPoint (RetrogradeCurve.new r g (INR j)) t).
  { intros g j. unfold RetrogradeCurve.getPoint.
    cbn [RetrogradeCurve.radius RetrogradeCurve.amplitudeFactor
         RetrogradeCurve.speedMultiplier].
    set (a := t * PI * 2).
    replace ((t + 1) * PI * 2) with (a + 2 * INR 1 * PI) by (unfold a; simpl; ring).
    replace (- INR j * (a + 2 * INR 1 * PI))
      with (- (INR j * a + 2 * INR j * PI)) by (simpl; ring).
    replace (- INR j * a) with (- (INR j * a)) by ring.
    rewrite !cos_neg, !sin_neg, !cos_period, !sin_period. reflexivity. }
  split; [apply H|].
  assert (E : ringCurve r = RetrogradeCurve.new r 0.1 (INR 2)).
  { reflexivity. }
  rewrite E. apply H.
Qed.

(** With the multiplier [1.5] of the live body the curve does not close:
    its two ends are [2 r f] apart in abscissa, so that a ring needs a whole
    multiplier. *)
Theorem getPoint_open_at_three_halves (r f : R) :
  r * f <> 0 ->
  RetrogradeCurve.getPoint (RetrogradeCurve.new r f 1.5) 1
  <> RetrogradeCurve.getPoint (RetrogradeCurve.new r f 1.5) 0.
Proof.
  intros Hrf H. unfold RetrogradeCurve.getPoint in H.
  cbn [RetrogradeCurve.radius RetrogradeCurve.amplitudeFactor
       RetrogradeCurve.speedMultiplier] in H.
  injection H as Hx _.
  replace (1 * PI * 2) with (2 * PI) in Hx by ring.
  replace (- (1.5) * (2 * PI)) with (- (PI + 2 * INR 1 * PI)) in Hx
    by (simpl; lra).
  replace (0 * PI * 2) with 0 in Hx by ring.
  replace (- (1.5) * 0) with 0 in Hx by ring.
  rewrite cos_neg, cos_period, cos_PI, cos_2PI, cos_0 in Hx.
  apply Hrf. lra.
Qed.

Lemma getPoint_open_at_three_halves_witness :
  RetrogradeCurve.getPoint (RetrogradeCurve.new 52 0.1 1.5) 1
  <> RetrogradeCurve.getPoint (RetrogradeCurve.new 52 0.1 1.5) 0.
Proof.
  apply (getPoint_open_at_three_halves 52 0.1). lra.
Defined.

(** The ring curve has a threefold symmetry: a third of the parameter
    range further on, the point is the same point turned by a third of a
    turn, at the same distance from the origin. *)
Theorem getPoint_threefold (r t : R) :
  RetrogradeCurve.getPoint (ringCurve r) (t + 1 / 3)
  = rotateY (2 * PI / 3) (RetrogradeCurve.getPoint (ringCurve r) t)
  /\ norm (RetrogradeCurve.getPoint (ringCurve r) (t + 1 / 3))
     = norm (RetrogradeCurve.getPoint (ringCurve r) t).
Proof.
  assert (H : RetrogradeCurve.getPoint (ringCurve r) (t + 1 / 3)
              = rotateY (2 * PI / 3) (RetrogradeCurve.getPoint (ringCurve r) t)).
  { unfold RetrogradeCurve.getPoint, ringCurve, rotateY.
    cbn [RetrogradeCurve.radius RetrogradeCurve.amplitudeFactor
         RetrogradeCurve.speedMultiplier vx vy vz].
    set (a := t * PI * 2). set (phi := 2 * PI / 3).
    replace ((t + 1 / 3) * PI * 2) with (a + phi) by (unfold a, phi; field).
    replace (- (2) * (a + phi)) with (- (2) * a + phi - 2 * PI)
      by (unfold phi; field).
    rewrite cos_2PI_back, sin_2PI_back, !cos_plus, !sin_plus.
    f_equal; ring. }
  split; [exact H|]. rewrite H.
  unfold rotateY, norm. cbn [vx vy vz]. f_equal.
  set (x := vx (RetrogradeCurve.getPoint (ringCurve r) t)).
  set (y := vy (RetrogradeCurve.getPoint (ringCurve r) t)).
  set (z := vz (RetrogradeCurve.getPoint (ringCurve r) t)).
  generalize (sin_cos_sq (2 * PI / 3)). intros Hsc.
  replace ((cos (2 * PI / 3) * x - sin (2 * PI / 3) * z)
           * (cos (2 * PI / 3) * x - sin (2 * PI / 3) * z) + y * y
           + (sin (2 * PI / 3) * x + cos (2 * PI / 3) * z)
             * (sin (2 * PI / 3) * x + cos (2 * PI / 3) * z))
    with ((sin (2 * PI / 3) * sin (2 * PI / 3)
           + cos (2 * PI / 3) * cos (2 * PI / 3)) * (x * x + z * z) + y * y)
    by ring.
  rewrite Hsc. ring.
Qed.

(** The two bounds of the ring are attained: at parameter 0 the curve is
    [1.1 r] from the origin, at parameter [1 / 6] it is [0.9 r] from it. *)
Theorem ring_extremes (r : R) :
  0 <= r ->
  norm (RetrogradeCurve.getPoint (ringCurve r) 0) = 1.1 * r
  /\ norm (RetrogradeCurve.getPoint (ringCurve r) (1 / 6)) = 0.9 * r.
Proof.
  intros Hr. split.
  - rewrite getPoint_start, norm_planar.
    replace ((r + r * 0.1) * (r + r * 0.1) + 0 * 0)
      with (1.1 * r * (1.1 * r)) by lra.
    apply sqrt_square. lra.
  - unfold RetrogradeCurve.getPoint, ringCurve.
    cbn [RetrogradeCurve.radius RetrogradeCurve.amplitudeFactor
         RetrogradeCurve.speedMultiplier].
    rewrite norm_planar, epicycle_sq.
    replace (1 / 6 * PI * 2 - - (2) * (1 / 6 * PI * 2)) with PI by field.
    rewrite cos_PI.
    replace (r * r * (1 + 0.1 * 0.1 + 2 * 0.1 * -1))
      with (0.9 * r * (0.9 * r)) by lra.
    apply sqrt_square. lra.
Qed.

Lemma ring_extremes_witness :
  norm (RetrogradeCurve.getPoint (ringCurve 52) 0) = 1.1 * 52
  /\ norm (RetrogradeCurve.getPoint (ringCurve 52) (1 / 6)) = 0.9 * 52.
Proof.
  apply (ring_extremes 52). lra.
Defined.

(** Whatever the constructor is given, with a radius that is not negative
    and an amplitude factor between 0 and 1, the curve stays in the plane
    [y = 0] between [r (1 - f)] and [r (1 + f)] from the origin, for every
    multiplier and every parameter value. *)
Theorem getPoint_annulus (c : RetrogradeCurve.t) (t : R) :
  0 <= RetrogradeCurve.radius c ->
  0 <= RetrogradeCurve.amplitudeFactor c <= 1 ->
  vy (RetrogradeCurve.getPoint c t) = 0
  /\ RetrogradeCurve.radius c * (1 - RetrogradeCurve.amplitudeFactor c)
     <= norm (RetrogradeCurve.getPoint c t)
     <= RetrogradeCurve.radius c * (1 + RetrogradeCurve.amplitudeFactor c).
Proof.
  intros Hr Hf. split; [reflexivity|].
  unfold RetrogradeCurve.getPoint. apply epicycle_norm_bounds; assumption.
Qed.

Lemma getPoint_annulus_witness :
  vy (RetrogradeCurve.getPoint (RetrogradeCurve.new 52 0.3 5) 0.7) = 0
  /\ RetrogradeCurve.radius (RetrogradeCurve.new 52 0.3 5)
     * (1 - RetrogradeCurve.amplitudeFactor (RetrogradeCurve.new 52 0.3 5))
     <= norm (RetrogradeCurve.getPoint (RetrogradeCurve.new 52 0.3 5) 0.7)
     <= RetrogradeCurve.radius (RetrogradeCurve.new 52 0.3 5)
        * (1 + RetrogradeCurve.amplitudeFactor (RetrogradeCurve.new 52 0.3 5)).
Proof.
  apply (getPoint_annulus (RetrogradeCurve.new 52 0.3 5) 0.7); simpl; lra.
Defined.

(** ** The rings of the scene *)

(** In the scene the thick stroke of the retrograde tube is never used:
    the only ring of radius 394.8 is rendered in the heliocentric frame
    alone, so every retrograde ring is a closed tube of 100 segments and
    radius 0.05 along the ring curve of its radius, with a hit region of
    radius 0.5 along the same curve; the other rings build no tube. *)
Theorem scene_retro_tube (h : bool) (b : Body) :
  match renderRing h b with
  | Some p =>
    if OrbitRing.isRetrograde p then
      OrbitRing.retroTubeGeometry p
      = Some (OrbitRing.mkTubeGeometry (ringCurve (OrbitRing.radius p)) 100 0.05 8 true)
      /\ OrbitRing.hitboxTubeGeometry p
         = Some (OrbitRing.mkTubeGeometry (ringCurve (OrbitRing.radius p)) 100 0.5 8 true)
    else
      OrbitRing.retroTubeGeometry p = None
      /\ OrbitRing.hitboxTubeGeometry p = None
  | None => True
  end.
Proof.
  destruct h, b; cbn [renderRing negb]; try exact I;
    unfold OrbitRing.retroTubeGeometry, OrbitRing.hitboxTubeGeometry;
    cbn [OrbitRing.isRetrograde OrbitRing.isHeliocentric OrbitRing.planetName
         OrbitRing.radius negb andb String.eqb Ascii.eqb Bool.eqb];
    try (split; reflexivity);
    (destruct (Req_EM_T _ 394.8) as [E | _]; [exfalso; lra | split; reflexivity]).
Qed.

(** Rings and orbits go together in both frames: a body has a ring exactly
    when its [Planet] is rendered with a positive orbit radius (the body at
    the centre has a [Planet] of radius 0 and no ring); ring and planet
    then carry the same name and frame, the ring is the retrograde tube
    exactly when the planet moves by the epicyclic branch, and the ring has
    the radius of the orbit, except for Mars in the heliocentric frame,
    whose ring has radius 40.2 around an orbit of radius 15.2. *)
Theorem scene_ring_matches_orbit (h : bool) (b : Body) :
  match renderRing h b, SolarSystem.propsOf (SolarSystem.render h b) with
  | Some rp, Some p =>
    0 < orbitRadius p
    /\ OrbitRing.planetName rp = name p
    /\ OrbitRing.isHeliocentric rp = isHeliocentric p
    /\ OrbitRing.isRetrograde rp = negb (isHeliocentric p || isExempt (name p))
    /\ (OrbitRing.radius rp = orbitRadius p
        \/ (b = Mars /\ h = true
            /\ OrbitRing.radius rp = 40.2 /\ orbitRadius p = 15.2))
  | None, Some p => orbitRadius p = 0
  | Some _, None => False
  | None, None => True
  end.
Proof.
  destruct h, b; cbn [renderRing SolarSystem.render SolarSystem.propsOf negb];
    try exact I; try reflexivity;
    cbn [orbitRadius name isHeliocentric OrbitRing.planetName
         OrbitRing.isHeliocentric OrbitRing.radius];
    (split; [lra|]); (split; [reflexivity|]); (split; [reflexivity|]);
    (split; [reflexivity|]);
    try (left; reflexivity).
  right. repeat split; reflexivity.
Qed.

(** ** Clicks on a ring *)

Lemma onClick_accepted (p : OrbitRing.Props) (info : InfoData) (now : Z)
      (st : OrbitRing.State) :
  (now - OrbitRing.lastClickTime st > 200)%Z ->
  OrbitRing.onClick p info now st
  = (OrbitRing.mkState (OrbitRing.isHovered st) (negb (OrbitRing.isSelected st)) now,
     if OrbitRing.onSelect p
     then Some (if negb (OrbitRing.isSelected st) then Some info else None)
     else None).
Proof.
  intros H. unfold OrbitRing.onClick.
  destruct (Z.gtb_spec (now - OrbitRing.lastClickTime st) 200) as [_ | Hn];
    [reflexivity | exfalso; apply Z.gt_lt in H; apply (Z.lt_irrefl 200);
                   eapply Z.lt_le_trans; eassumption].
Qed.

Lemma onClick_rejected (p : OrbitRing.Props) (info : InfoData) (now : Z)
      (st : OrbitRing.State) :
  (now - OrbitRing.lastClickTime st <= 200)%Z ->
  OrbitRing.onClick p info now st = (st, None).
Proof.
  intros H. unfold OrbitRing.onClick.
  destruct (Z.gtb_spec (now - OrbitRing.lastClickTime st) 200) as [Hn | _];
    [exfalso; apply (Z.lt_irrefl 200); eapply Z.lt_le_trans; eassumption
    | reflexivity].
Qed.

(** A double click counts once: when a click is accepted, a second click
    at most 200 ms later changes nothing and calls nobody, so that the ring
    is left selected (or deselected) by the first click alone. *)
Theorem double_click_counts_once
        (p : OrbitRing.Props) (info1 info2 : InfoData) (now1 now2 : Z)
        (st : OrbitRing.State) :
  (now1 - OrbitRing.lastClickTime st > 200)%Z ->
  (now2 - now1 <= 200)%Z ->
  let st1 := fst (OrbitRing.onClick p info1 now1 st) in
  OrbitRing.isSelected st1 = negb (OrbitRing.isSelected st)
  /\ OrbitRing.onClick p info2 now2 st1 = (st1, None).
Proof.
  intros H1 H2 st1. unfold st1. rewrite (onClick_accepted p info1 now1 st H1).
  cbn [fst]. split; [reflexivity|].
  apply onClick_rejected. cbn [OrbitRing.lastClickTime]. exact H2.
Qed.

Lemma double_click_counts_once_witness :
  let st1 := fst (OrbitRing.onClick (OrbitRing.mkProps 52 true "Jupiter" false true)
                    (mkInfoData "Jupiter" "" "" "") 1000%Z OrbitRing.init) in
  OrbitRing.isSelected st1 = negb (OrbitRing.isSelected OrbitRing.init)
  /\ OrbitRing.onClick (OrbitRing.mkProps 52 true "Jupiter" false true)
       (mkInfoData "Jupiter" "" "" "") 1150%Z st1 = (st1, None).
Proof.
  apply (double_click_counts_once (OrbitRing.mkProps 52 true "Jupiter" false true)
           (mkInfoData "Jupiter" "" "" "") (mkInfoData "Jupiter" "" "" "")
           1000%Z 1150%Z OrbitRing.init).
  - reflexivity.
  - discriminate.
Defined.

Lemma last_cons_default (z : Z) (l : list Z) (d d' : Z) :
  last (z :: l) d = last (z :: l) d'.
Proof.
  revert z. induction l as [| y l IH]; intros z; [reflexivity|].
  change (last (y :: l) d = last (y :: l) d'). apply IH.
Qed.

(** Clicks more than 200 ms apart alternate: after any number of them the
    ring is selected exactly when it was not before and their number is
    odd, or it was and their number is even; the time of the last one is
    remembered and the hover flag is left alone. *)
Theorem spaced_clicks_alternate
        (p : OrbitRing.Props) (info : InfoData) (ts : list Z)
        (st : OrbitRing.State) :
  spaced (OrbitRing.lastClickTime st) ts ->
  OrbitRing.isSelected (ringClicks p info ts st)
  = xorb (OrbitRing.isSelected st) (Nat.odd (List.length ts))
  /\ OrbitRing.lastClickTime (ringClicks p info ts st)
     = last ts (OrbitRing.lastClickTime st)
  /\ OrbitRing.isHovered (ringClicks p info ts st) = OrbitRing.isHovered st.
Proof.
  revert st. induction ts as [| t ts IH]; intros st Hsp.
  - cbn. rewrite xorb_false_r. auto.
  - destruct Hsp as [Ht Hrest].
    unfold ringClicks. cbn [fold_left].
    rewrite (onClick_accepted p info t st Ht). cbn [fst].
    fold (ringClicks p info ts
            (OrbitRing.mkState (OrbitRing.isHovered st)
                               (negb (OrbitRing.isSelected st)) t)).
    destruct (IH (OrbitRing.mkState (OrbitRing.isHovered st)
                                    (negb (OrbitRing.isSelected st)) t) Hrest)
      as [H1 [H2 H3]].
    rewrite H1, H2, H3. cbn [OrbitRing.isSelected OrbitRing.lastClickTime
                              OrbitRing.isHovered List.length].
    rewrite Nat.odd_succ, <- Nat.negb_odd.
    split; [|split; [|reflexivity]].
    + destruct (OrbitRing.isSelected st), (Nat.odd (List.length ts)); reflexivity.
    + destruct ts as [| z ts']; [reflexivity|].
      change (last (t :: z :: ts') (OrbitRing.lastClickTime st))
        with (last (z :: ts') (OrbitRing.lastClickTime st)).
      apply last_cons_default.
Qed.

Lemma spaced_clicks_alternate_witness :
  OrbitRing.isSelected
    (ringClicks (OrbitRing.mkProps 52 true "Jupiter" false true)
       (mkInfoData "Jupiter" "" "" "") [1000%Z; 1500%Z; 2000%Z] OrbitRing.init)
  = xorb (OrbitRing.isSelected OrbitRing.init)
         (Nat.odd (List.length [1000%Z; 1500%Z; 2000%Z]))
  /\ OrbitRing.lastClickTime
       (ringClicks (OrbitRing.mkProps 52 true "Jupiter" false true)
          (mkInfoData "Jupiter" "" "" "") [1000%Z; 1500%Z; 2000%Z] OrbitRing.init)
     = last [1000%Z; 1500%Z; 2000%Z] (OrbitRing.lastClickTime OrbitRing.init)
  /\ OrbitRing.isHovered
       (ringClicks (OrbitRing.mkProps 52 true "Jupiter" false true)
          (mkInfoData "Jupiter" "" "" "") [1000%Z; 1500%Z; 2000%Z] OrbitRing.init)
     = OrbitRing.isHovered OrbitRing.init.
Proof.
  apply (spaced_clicks_alternate (OrbitRing.mkProps 52 true "Jupiter" false true)
           (mkInfoData "Jupiter" "" "" "") [1000%Z; 1500%Z; 2000%Z] OrbitRing.init).
  cbn. repeat split.
Defined.

(** ** The rings and the info panel *)

Lemma Body_eqb_refl (b : Body) : Body_eqb b b = true.
Proof. destruct b; reflexivity. Qed.

Lemma Body_eqb_neq (a b : Body) : a <> b -> Body_eqb a b = false.
Proof. destruct a, b; intros H; try reflexivity; exfalso; apply H; reflexivity. Qed.

Lemma renderRing_onSelect (h : bool) (b : Body) (p : OrbitRing.Props) :
  renderRing h b = Some p -> OrbitRing.onSelect p = true.
Proof.
  destruct h, b; cbn; intros H; try discriminate; injection H as <-; reflexivity.
Qed.

Lemma click_accepted (getHoverInfo : Body -> bool -> InfoData)
      (b : Body) (now : Z) (s : Panel.State)
      (p : OrbitRing.Props) (rs : OrbitRing.State) :
  renderRing (Panel.isHeliocentric s) b = Some p ->
  Panel.rings s b = Some rs ->
  (now - OrbitRing.lastClickTime rs > 200)%Z ->
  Panel.click getHoverInfo b now s
  = Panel.mkState (Panel.isHeliocentric s)
      (if negb (OrbitRing.isSelected rs)
       then Some (getHoverInfo b (Panel.isHeliocentric s)) else None)
      (fun b' => if Body_eqb b' b
                 then Some (OrbitRing.mkState (OrbitRing.isHovered rs)
                                              (negb (OrbitRing.isSelected rs)) now)
                 else Panel.rings s b').
Proof.
  intros Hp Hrs Hnow. unfold Panel.click. rewrite Hp, Hrs.
  rewrite (onClick_accepted p _ now rs Hnow).
  rewrite (renderRing_onSelect _ _ _ Hp). reflexivity.
Qed.

(** The selection of a ring outlives the toggle that clears the panel: for
    a ring rendered in both frames that was selected before the toggle, the
    first click after it deselects the ring and hands the panel nothing, so
    the panel stays empty. *)
Theorem stale_selection_after_toggle
        (getHoverInfo : Body -> bool -> InfoData)
        (b : Body) (now : Z) (s : Panel.State) (rs : OrbitRing.State) :
  renderRing true b <> None ->
  renderRing false b <> None ->
  Panel.rings s b = Some rs ->
  OrbitRing.isSelected rs = true ->
  (now - OrbitRing.lastClickTime rs > 200)%Z ->
  Panel.selectedObjectInfo (Panel.toggle s) = None
  /\ Panel.selectedObjectInfo (Panel.click getHoverInfo b now (Panel.toggle s)) = None
  /\ option_map OrbitRing.isSelected
       (Panel.rings (Panel.click getHoverInfo b now (Panel.toggle s)) b)
     = Some false.
Proof.
  intros Ht Hf Hrs Hsel Hnow. split; [reflexivity|].
  assert (Hkept : Panel.rings (Panel.toggle s) b = Some rs).
  { unfold Panel.toggle. cbn [Panel.rings].
    destruct (Panel.isHeliocentric s); cbn [negb];
      destruct (renderRing true b), (renderRing false b);
      try exact Hrs; exfalso; auto. }
  destruct (renderRing (Panel.isHeliocentric (Panel.toggle s)) b) as [p|] eqn:Hp.
  - rewrite (click_accepted getHoverInfo b now (Panel.toggle s) p rs Hp Hkept Hnow).
    cbn [Panel.selectedObjectInfo Panel.rings]. rewrite Hsel, Body_eqb_refl.
    split; reflexivity.
  - exfalso. destruct (Panel.isHeliocentric (Panel.toggle s)); auto.
Qed.

Lemma stale_selection_after_toggle_witness :
  Panel.selectedObjectInfo
    (Panel.toggle
       (Panel.click (fun _ _ => mkInfoData "Jupiter" "" "" "") Jupiter 1000%Z Panel.init))
  = None
  /\ Panel.selectedObjectInfo
       (Panel.click (fun _ _ => mkInfoData "Jupiter" "" "" "") Jupiter 2000%Z
          (Panel.toggle
             (Panel.click (fun _ _ => mkInfoData "Jupiter" "" "" "") Jupiter 1000%Z
                Panel.init)))
     = None
  /\ option_map OrbitRing.isSelected
       (Panel.rings
          (Panel.click (fun _ _ => mkInfoData "Jupiter" "" "" "") Jupiter 2000%Z
             (Panel.toggle
                (Panel.click (fun _ _ => mkInfoData "Jupiter" "" "" "") Jupiter 1000%Z
                   Panel.init))) Jupiter)
     = Some false.
Proof.
  apply (stale_selection_after_toggle (fun _ _ => mkInfoData "Jupiter" "" "" "")
           Jupiter 2000%Z
           (Panel.click (fun _ _ => mkInfoData "Jupiter" "" "" "") Jupiter 1000%Z
              Panel.init)
           (OrbitRing.mkState false true 1000%Z)).
  - discriminate.
  - discriminate.
  - reflexivity.
  - reflexivity.
  - reflexivity.
Defined.

(** The panel follows the last call, not the rings: with two rings mounted
    and neither selected, a click on the first shows its text, a click on
    the second replaces it by the text of the second, and a further click
    on the first, which only deselects the first, empties the panel while
    the second ring is still marked selected. *)
Theorem second_click_empties_panel
        (getHoverInfo : Body -> bool -> InfoData)
        (a b : Body) (t1 t2 t3 : Z) (s : Panel.State)
        (ra rb : OrbitRing.State) :
  a <> b ->
  renderRing (Panel.isHeliocentric s) a <> None ->
  renderRing (Panel.isHeliocentric s) b <> None ->
  Panel.rings s a = Some ra ->
  Panel.rings s b = Some rb ->
  OrbitRing.isSelected ra = false ->
  OrbitRing.isSelected rb = false ->
  (t1 - OrbitRing.lastClickTime ra > 200)%Z ->
  (t2 - OrbitRing.lastClickTime rb > 200)%Z ->
  (t3 - t1 > 200)%Z ->
  let s1 := Panel.click getHoverInfo a t1 s in
  let s2 := Panel.click getHoverInfo b t2 s1 in
  let s3 := Panel.click getHoverInfo a t3 s2 in
  Panel.selectedObjectInfo s1 = Some (getHoverInfo a (Panel.isHeliocentric s))
  /\ Panel.selectedObjectInfo s2 = Some (getHoverInfo b (Panel.isHeliocentric s))
  /\ Panel.selectedObjectInfo s3 = None
  /\ option_map OrbitRing.isSelected (Panel.rings s3 b) = Some true
  /\ option_map OrbitRing.isSelected (Panel.rings s3 a) = Some false.
Proof.
  intros Hab Ha Hb Hra Hrb Hsa Hsb H1 H2 H3 s1 s2 s3.
  destruct (renderRing (Panel.isHeliocentric s) a) as [pa|] eqn:Hpa; [|contradiction].
  destruct (renderRing (Panel.isHeliocentric s) b) as [pb|] eqn:Hpb; [|contradiction].
  assert (Hba : Body_eqb b a = false).
  { apply Body_eqb_neq. intros E. apply Hab. symmetry. exact E. }
  assert (E1 : s1 = Panel.mkState (Panel.isHeliocentric s)
                      (Some (getHoverInfo a (Panel.isHeliocentric s)))
                      (fun b' => if Body_eqb b' a
                                 then Some (OrbitRing.mkState (OrbitRing.isHovered ra) true t1)
                                 else Panel.rings s b')).
  { unfold s1. rewrite (click_accepted getHoverInfo a t1 s pa ra Hpa Hra H1).
    rewrite Hsa. reflexivity. }
  assert (E2 : s2 = Panel.mkState (Panel.isHeliocentric s)
                      (Some (getHoverInfo b (Panel.isHeliocentric s)))
                      (fun b' => if Body_eqb b' b
                                 then Some (OrbitRing.mkState (OrbitRing.isHovered rb) true t2)
                                 else Panel.rings s1 b')).
  { unfold s2.
    rewrite (click_accepted getHoverInfo b t2 s1 pb rb).
    - rewrite Hsb, E1. reflexivity.
    - rewrite E1. exact Hpb.
    - rewrite E1. cbn [Panel.rings]. rewrite Hba. exact Hrb.
    - exact H2. }
  assert (Hra2 : Panel.rings s2 a
                 = Some (OrbitRing.mkState (OrbitRing.isHovered ra) true t1)).
  { rewrite E2. cbn [Panel.rings]. rewrite (Body_eqb_neq a b Hab).
    rewrite E1. cbn [Panel.rings]. rewrite Body_eqb_refl. reflexivity. }
  assert (E3 : s3 = Panel.mkState (Panel.isHeliocentric s) None
                      (fun b' => if Body_eqb b' a
                                 then Some (OrbitRing.mkState (OrbitRing.isHovered ra) false t3)
                                 else Panel.rings s2 b')).
  { unfold s3.
    rewrite (click_accepted getHoverInfo a t3 s2 pa _ ltac:(rewrite E2; exact Hpa) Hra2 H3).
    rewrite E2. reflexivity. }
  split; [rewrite E1; reflexivity|].
  split; [rewrite E2; reflexivity|].
  split; [rewrite E3; reflexivity|].
  split.
  - rewrite E3. cbn [Panel.rings]. rewrite Hba.
    rewrite E2. cbn [Panel.rings]. rewrite Body_eqb_refl. reflexivity.
  - rewrite E3. cbn [Panel.rings]. rewrite Body_eqb_refl. reflexivity.
Qed.

Lemma second_click_empties_panel_witness :
  let g := fun (b : Body) (_ : bool) =>
             match b with
             | Mars => mkInfoData "Mars" "" "" ""
             | _ => mkInfoData "Jupiter" "" "" ""
             end in
  let s1 := Panel.click g Mars 1000%Z Panel.init in
  let s2 := Panel.click g Jupiter 2000%Z s1 in
  let s3 := Panel.click g Mars 3000%Z s2 in
  Panel.selectedObjectInfo s1 = Some (g Mars (Panel.isHeliocentric Panel.init))
  /\ Panel.selectedObjectInfo s2 = Some (g Jupiter (Panel.isHeliocentric Panel.init))
  /\ Panel.selectedObjectInfo s3 = None
  /\ option_map OrbitRing.isSelected (Panel.rings s3 Jupiter) = Some true
  /\ option_map OrbitRing.isSelected (Panel.rings s3 Mars) = Some false.
Proof.
  intros g.
  apply (second_click_empties_panel g Mars Jupiter 1000%Z 2000%Z 3000%Z Panel.init
           OrbitRing.init OrbitRing.init).
  - discriminate.
  - discriminate.
  - discriminate.
  - reflexivity.
  - reflexivity.
  - reflexivity.
  - reflexivity.
  - reflexivity.
  - reflexivity.
  - reflexivity.
Defined.

(** ** The camera transition *)

Lemma lerpVectors_one (a b : Vector3) : CameraTransition.lerpVectors a b 1 = b.
Proof.
  destruct b as [x y z]. unfold CameraTransition.lerpVectors. cbn [vx vy vz].
  f_equal; ring.
Qed.

Lemma norm_scale (k x y z : R) :
  norm (mkVector3 (k * x) (k * y) (k * z)) = Rabs k * norm (mkVector3 x y z).
Proof.
  unfold norm. cbn [vx vy vz].
  replace (k * x * (k * x) + k * y * (k * y) + k * z * (k * z))
    with (k² * (x * x + y * y + z * z)) by (unfold Rsqr; ring).
  rewrite sqrt_mult_alt by apply Rle_0_sqr.
  rewrite sqrt_Rsqr_abs. reflexivity.
Qed.

Lemma lerpVectors_distance (a b : Vector3) (p : R) :
  p <= 1 ->
  distanceTo (CameraTransition.lerpVectors a b p) b = (1 - p) * distanceTo a b.
Proof.
  intros Hp. unfold distanceTo, CameraTransition.lerpVectors. cbn [vx vy vz].
  replace (vx a + (vx b - vx a) * p - vx b) with ((1 - p) * (vx a - vx b)) by ring.
  replace (vy a + (vy b - vy a) * p - vy b) with ((1 - p) * (vy a - vy b)) by ring.
  replace (vz a + (vz b - vz a) * p - vz b) with ((1 - p) * (vz a - vz b)) by ring.
  rewrite norm_scale, Rabs_right by lra. reflexivity.
Qed.

Lemma totalTime_nonneg (deltas : list R) :
  Forall (fun d => 0 <= d) deltas -> 0 <= totalTime deltas.
Proof.
  induction 1 as [| d l Hd Hl IH]; unfold totalTime in *; cbn [fold_right]; lra.
Qed.

Lemma camera_useFrame (target : Vector3) (delta : R) (st : CameraTransition.State) :
  0 <= delta ->
  0 <= CameraTransition.animProgress st <= 1 ->
  CameraTransition.cameraPosition st
  = CameraTransition.lerpVectors (CameraTransition.startPos st) target
      (CameraTransition.animProgress st) ->
  let st' := CameraTransition.useFrame target delta st in
  CameraTransition.animProgress st'
  = Rmin (CameraTransition.animProgress st + delta * 0.5) 1
  /\ CameraTransition.startPos st' = CameraTransition.startPos st
  /\ CameraTransition.cameraPosition st'
     = CameraTransition.lerpVectors (CameraTransition.startPos st') target
         (CameraTransition.animProgress st').
Proof.
  intros Hd Hp Hc st'. unfold st', CameraTransition.useFrame.
  destruct (Rlt_dec (CameraTransition.animProgress st) 1) as [Hlt | Hge].
  - cbn. auto.
  - rewrite Rmin_right by lra. repeat split; [lra | exact Hc].
Qed.

Lemma camera_run (target : Vector3) (deltas : list R) :
  Forall (fun d => 0 <= d) deltas ->
  forall st,
    0 <= CameraTransition.animProgress st <= 1 ->
    CameraTransition.cameraPosition st
    = CameraTransition.lerpVectors (CameraTransition.startPos st) target
        (CameraTransition.animProgress st) ->
    let st' := CameraTransition.run target deltas st in
    CameraTransition.animProgress st'
    = Rmin (CameraTransition.animProgress st + 0.5 * totalTime deltas) 1
    /\ CameraTransition.startPos st' = CameraTransition.startPos st
    /\ CameraTransition.cameraPosition st'
       = CameraTransition.lerpVectors (CameraTransition.startPos st') target
           (CameraTransition.animProgress st').
Proof.
  induction 1 as [| d l Hd Hl IH]; intros st Hp Hc.
  - cbn. rewrite Rmin_left by lra. repeat split; [ring | exact Hc].
  - destruct (camera_useFrame target d st Hd Hp Hc) as [H1 [H2 H3]].
    assert (Hp1 : 0 <= CameraTransition.animProgress
                         (CameraTransition.useFrame target d st) <= 1).
    { rewrite H1. unfold Rmin. destruct (Rle_dec _ _); lra. }
    destruct (IH (CameraTransition.useFrame target d st) Hp1 H3) as [K1 [K2 K3]].
    unfold CameraTransition.run in *. cbn [fold_left].
    split; [|split].
    + rewrite K1, H1. cbn [totalTime fold_right].
      generalize (totalTime_nonneg l Hl). unfold totalTime. intros Hn.
      unfold Rmin.
      repeat (destruct (Rle_dec _ _)); lra.
    + rewrite K2. exact H2.
    + exact K3.
Qed.

Lemma transition_run_end (target : Vector3) (deltas : list R)
      (st : CameraTransition.State) :
  Forall (fun d => 0 <= d) deltas ->
  2 <= totalTime deltas ->
  CameraTransition.animProgress
    (CameraTransition.run target deltas (CameraTransition.effect st)) = 1
  /\ CameraTransition.cameraPosition
       (CameraTransition.run target deltas (CameraTransition.effect st)) = target.
Proof.
  intros Hd Ht.
  destruct (camera_run target deltas Hd (CameraTransition.effect st))
    as [H1 [H2 H3]].
  - cbn. lra.
  - cbn [CameraTransition.effect CameraTransition.cameraPosition
         CameraTransition.startPos CameraTransition.animProgress].
    destruct (CameraTransition.cameraPosition st) as [x y z].
    unfold CameraTransition.lerpVectors. cbn [vx vy vz]. f_equal; ring.
  - cbn [CameraTransition.effect CameraTransition.animProgress] in H1.
    rewrite Rmin_right in H1 by lra.
    split; [exact H1|]. rewrite H3, H1. apply lerpVectors_one.
Qed.

(** While the transition runs the camera is on the segment from where it
    started to the target: a frame with a non-negative frame time never
    lowers the progress nor takes it above 1, and leaves the camera at the
    fraction [1 - progress] of the whole distance from the target. *)
Theorem camera_on_segment
        (target : Vector3) (delta : R) (st : CameraTransition.State) :
  0 <= delta ->
  0 <= CameraTransition.animProgress st < 1 ->
  let st' := CameraTransition.useFrame target delta st in
  CameraTransition.animProgress st <= CameraTransition.animProgress st' <= 1
  /\ CameraTransition.cameraPosition st'
     = CameraTransition.lerpVectors (CameraTransition.startPos st) target
         (CameraTransition.animProgress st')
  /\ distanceTo (CameraTransition.cameraPosition st') target
     = (1 - CameraTransition.animProgress st')
       * distanceTo (CameraTransition.startPos st) target.
Proof.
  intros Hd [Hp0 Hp1] st'. unfold st', CameraTransition.useFrame.
  destruct (Rlt_dec (CameraTransition.animProgress st) 1) as [_ | Hge]; [|lra].
  cbn [CameraTransition.animProgress CameraTransition.cameraPosition].
  assert (Hm : CameraTransition.animProgress st
               <= Rmin (CameraTransition.animProgress st + delta * 0.5) 1 <= 1).
  { unfold Rmin. destruct (Rle_dec _ _); lra. }
  split; [exact Hm|]. split; [reflexivity|].
  apply lerpVectors_distance. lra.
Qed.

Lemma camera_on_segment_witness :
  let st := CameraTransition.effect (CameraTransition.mounted (mkVector3 0 200 500)) in
  let st' := CameraTransition.useFrame (targetPos true) 0.016 st in
  CameraTransition.animProgress st <= CameraTransition.animProgress st' <= 1
  /\ CameraTransition.cameraPosition st'
     = CameraTransition.lerpVectors (CameraTransition.startPos st) (targetPos true)
         (CameraTransition.animProgress st')
  /\ distanceTo (CameraTransition.cameraPosition st') (targetPos true)
     = (1 - CameraTransition.animProgress st')
       * distanceTo (CameraTransition.startPos st) (targetPos true).
Proof.
  apply (camera_on_segment (targetPos true) 0.016
           (CameraTransition.effect (CameraTransition.mounted (mkVector3 0 200 500)))).
  - lra.
  - simpl. lra.
Defined.

(** The transition lasts two seconds of frame time: started by the effect
    and run through frames with non-negative frame times, it has progress
    [min (0.5 * total time) 1] and the camera at that fraction of the way
    from where it stood to the target; once the frame times add up to 2 the
    camera is at the target. *)
Theorem transition_completes
        (target : Vector3) (deltas : list R) (st : CameraTransition.State) :
  Forall (fun d => 0 <= d) deltas ->
  let st' := CameraTransition.run target deltas (CameraTransition.effect st) in
  CameraTransition.animProgress st' = Rmin (0.5 * totalTime deltas) 1
  /\ CameraTransition.cameraPosition st'
     = CameraTransition.lerpVectors (CameraTransition.cameraPosition st) target
         (CameraTransition.animProgress st')
  /\ (2 <= totalTime deltas -> CameraTransition.cameraPosition st' = target).
Proof.
  intros Hd st'.
  destruct (camera_run target deltas Hd (CameraTransition.effect st))
    as [H1 [H2 H3]].
  - cbn. lra.
  - cbn [CameraTransition.effect CameraTransition.cameraPosition
         CameraTransition.startPos CameraTransition.animProgress].
    destruct (CameraTransition.cameraPosition st) as [x y z].
    unfold CameraTransition.lerpVectors. cbn [vx vy vz]. f_equal; ring.
  - fold st' in H1, H2, H3.
    cbn [CameraTransition.effect CameraTransition.animProgress
         CameraTransition.startPos] in H1, H2.
    replace (0 + 0.5 * totalTime deltas) with (0.5 * totalTime deltas) in H1 by ring.
    rewrite H2 in H3. split; [exact H1|]. split; [exact H3|].
    intros Ht. rewrite H3, H1, Rmin_right by lra. apply lerpVectors_one.
Qed.

Lemma transition_completes_witness :
  let st' := CameraTransition.run (targetPos false) [1; 0.5; 0.5]
               (CameraTransition.effect (CameraTransition.mounted (mkVector3 0 500 500))) in
  CameraTransition.animProgress st' = Rmin (0.5 * totalTime [1; 0.5; 0.5]) 1
  /\ CameraTransition.cameraPosition st'
     = CameraTransition.lerpVectors
         (CameraTransition.cameraPosition
            (CameraTransition.mounted (mkVector3 0 500 500)))
         (targetPos false) (CameraTransition.animProgress st')
  /\ (2 <= totalTime [1; 0.5; 0.5]
      -> CameraTransition.cameraPosition st' = targetPos false).
Proof.
  apply (transition_completes (targetPos false) [1; 0.5; 0.5]
           (CameraTransition.mounted (mkVector3 0 500 500))).
  repeat constructor; lra.
Defined.

(** A finished transition leaves the camera alone: once the progress has
    reached 1, no frame writes the camera, the progress or the start again,
    whatever the frame times and whatever target the frames are given,
    until the effect runs again. *)
Theorem finished_transition_is_idle
        (target : Vector3) (deltas : list R) (st : CameraTransition.State) :
  1 <= CameraTransition.animProgress st ->
  CameraTransition.run target deltas st = st.
Proof.
  intros Hp. induction deltas as [| d l IH]; [reflexivity|].
  unfold CameraTransition.run in *. cbn [fold_left].
  unfold CameraTransition.useFrame at 2.
  destruct (Rlt_dec (CameraTransition.animProgress st) 1) as [Hlt | _]; [lra|].
  exact IH.
Qed.

Lemma finished_transition_is_idle_witness :
  CameraTransition.run (targetPos false) [0.016; 0.016]
    (CameraTransition.mkState (mkVector3 0 500 500) 1 (mkVector3 0 200 500))
  = CameraTransition.mkState (mkVector3 0 500 500) 1 (mkVector3 0 200 500).
Proof.
  apply (finished_transition_is_idle (targetPos false) [0.016; 0.016]
           (CameraTransition.mkState (mkVector3 0 500 500) 1 (mkVector3 0 200 500))).
  simpl. lra.
Defined.

(** Every click on the toggle restarts the transition from where the camera
    stands, without moving it, and two seconds of frame time later the
    camera is at the vantage point of the new frame: [(0, 400, 400)] after a
    switch to the geocentric frame, [(0, 500, 500)] after a switch back. *)
Theorem toggle_moves_camera
        (s : SolarSystem.State) (c : CameraTransition.State) (deltas : list R) :
  Forall (fun d => 0 <= d) deltas ->
  2 <= totalTime deltas ->
  cameraAfterToggle s c = CameraTransition.effect c
  /\ CameraTransition.cameraPosition (cameraAfterToggle s c)
     = CameraTransition.cameraPosition c
  /\ CameraTransition.cameraPosition
       (CameraTransition.run
          (targetPos (SolarSystem.isHeliocentric (SolarSystem.toggle s)))
          deltas (cameraAfterToggle s c))
     = (if SolarSystem.isHeliocentric s then mkVector3 0 400 400
        else mkVector3 0 500 500).
Proof.
  intros Hd Ht.
  assert (E : cameraAfterToggle s c = CameraTransition.effect c).
  { unfold cameraAfterToggle, CameraTransition.rerender.
    cbn [SolarSystem.toggle SolarSystem.commit SolarSystem.onClick
         SolarSystem.animTrigger].
    destruct (SolarSystem.animTrigger s); reflexivity. }
  split; [exact E|]. split; [rewrite E; reflexivity|].
  rewrite E.
  destruct (transition_run_end
              (targetPos (SolarSystem.isHeliocentric (SolarSystem.toggle s)))
              deltas c Hd Ht) as [_ H].
  rewrite H.
  cbn [SolarSystem.toggle SolarSystem.commit SolarSystem.onClick
       SolarSystem.isHeliocentric].
  destruct (SolarSystem.isHeliocentric s); reflexivity.
Qed.

Lemma toggle_moves_camera_witness :
  cameraAfterToggle SolarSystem.init
    (CameraTransition.effect (CameraTransition.mounted (mkVector3 0 200 500)))
  = CameraTransition.effect
      (CameraTransition.effect (CameraTransition.mounted (mkVector3 0 200 500)))
  /\ CameraTransition.cameraPosition
       (cameraAfterToggle SolarSystem.init
          (CameraTransition.effect (CameraTransition.mounted (mkVector3 0 200 500))))
     = CameraTransition.cameraPosition
         (CameraTransition.effect (CameraTransition.mounted (mkVector3 0 200 500)))
  /\ CameraTransition.cameraPosition
       (CameraTransition.run
          (targetPos (SolarSystem.isHeliocentric (SolarSystem.toggle SolarSystem.init)))
          [1; 1]
          (cameraAfterToggle SolarSystem.init
             (CameraTransition.effect (CameraTransition.mounted (mkVector3 0 200 500)))))
     = (if SolarSystem.isHeliocentric SolarSystem.init then mkVector3 0 400 400
        else mkVector3 0 500 500).
Proof.
  apply (toggle_moves_camera SolarSystem.init
           (CameraTransition.effect (CameraTransition.mounted (mkVector3 0 200 500)))
           [1; 1]).
  - repeat constructor; lra.
  - simpl. lra.
Defined.

(** ** The earlier scene *)

Lemma legacy_useFrame_mounted (p : Legacy.Props) (st : Legacy.State) (pos : Vector3) :
  Legacy.meshPosition st = Some pos ->
  Legacy.angle (Legacy.useFrame p st) = Legacy.angle st + Legacy.orbitSpeed p
  /\ Legacy.meshPosition (Legacy.useFrame p st)
     = Some (if legacyAnchor p then mkVector3 0 (vy pos) 0
             else mkVector3 (cos (Legacy.angle st) * Legacy.orbitRadius p) (vy pos)
                            (sin (Legacy.angle st) * Legacy.orbitRadius p)).
Proof.
  intros H. unfold Legacy.useFrame, legacyAnchor. rewrite H.
  cbn [Legacy.angle Legacy.meshPosition]. split; [reflexivity|].
  destruct (Legacy.isHeliocentric p);
    destruct (String.eqb (Legacy.color p) "#FFD700");
    destruct (String.eqb (Legacy.color p) "#4169E1"); reflexivity.
Qed.

(** The earlier callback knows no epicycle: in either frame a frame leaves
    the height of a mounted body alone and puts the body on the axis when
    it is the anchor of the frame (whatever its orbit radius), and
    otherwise, the Sun of the geocentric frame included, on the plain circle
    of its orbit radius about the axis. *)
Theorem legacy_plain_circles
        (p : Legacy.Props) (st : Legacy.State) (pos : Vector3) :
  Legacy.meshPosition st = Some pos ->
  exists pos',
    Legacy.meshPosition (Legacy.useFrame p st) = Some pos'
    /\ vy pos' = vy pos
    /\ vx pos' * vx pos' + vz pos' * vz pos'
       = (if legacyAnchor p then 0
          else Legacy.orbitRadius p * Legacy.orbitRadius p).
Proof.
  intros H. destruct (legacy_useFrame_mounted p st pos H) as [_ Hm].
  eexists. split; [exact Hm|].
  destruct (legacyAnchor p); cbn [vx vy vz]; (split; [reflexivity|]); [ring|].
  generalize (sin_cos_sq (Legacy.angle st)). intros Hsc.
  replace (cos (Legacy.angle st) * Legacy.orbitRadius p
           * (cos (Legacy.angle st) * Legacy.orbitRadius p)
           + sin (Legacy.angle st) * Legacy.orbitRadius p
             * (sin (Legacy.angle st) * Legacy.orbitRadius p))
    with (Legacy.orbitRadius p * Legacy.orbitRadius p
          * (sin (Legacy.angle st) * sin (Legacy.angle st)
             + cos (Legacy.angle st) * cos (Legacy.angle st))) by ring.
  rewrite Hsc. ring.
Qed.

Lemma legacy_plain_circles_witness :
  exists pos',
    Legacy.meshPosition
      (Legacy.useFrame (Legacy.mkProps (mkVector3 0 0 0) "#FFD700" 10 0.02 false)
         (Legacy.mount (Legacy.mkProps (mkVector3 0 0 0) "#FFD700" 10 0.02 false)))
    = Some pos'
    /\ vy pos' = vy (mkVector3 0 0 0)
    /\ vx pos' * vx pos' + vz pos' * vz pos'
       = (if legacyAnchor (Legacy.mkProps (mkVector3 0 0 0) "#FFD700" 10 0.02 false)
          then 0
          else Legacy.orbitRadius (Legacy.mkProps (mkVector3 0 0 0) "#FFD700" 10 0.02 false)
               * Legacy.orbitRadius (Legacy.mkProps (mkVector3 0 0 0) "#FFD700" 10 0.02 false)).
Proof.
  apply (legacy_plain_circles (Legacy.mkProps (mkVector3 0 0 0) "#FFD700" 10 0.02 false)
           (Legacy.mount (Legacy.mkProps (mkVector3 0 0 0) "#FFD700" 10 0.02 false))
           (mkVector3 0 0 0)).
  reflexivity.
Defined.

Lemma legacyFrames_mounted (p : Legacy.Props) (n : nat) :
  exists pos,
    Legacy.meshPosition (legacyFrames p n (Legacy.mount p)) = Some pos
    /\ vy pos = vy (Legacy.position p)
    /\ Legacy.angle (legacyFrames p n (Legacy.mount p)) = INR n * Legacy.orbitSpeed p.
Proof.
  induction n as [| n [pos [Hm [Hy Ha]]]].
  - exists (Legacy.position p). cbn. repeat split. ring.
  - cbn [legacyFrames].
    destruct (legacy_useFrame_mounted p _ pos Hm) as [Ha' Hm'].
    eexists. split; [exact Hm'|]. split.
    + destruct (legacyAnchor p); cbn [vy]; exact Hy.
    + rewrite Ha', Ha, S_INR. ring.
Qed.

(** The earlier callback runs one frame behind the later one: it places the
    body by the angle stored before the frame.  For an orbiting body that is
    not the anchor, set up at height 0 in the heliocentric frame, its mesh
    is after [n + 2] frames where the later callback has put the group after
    [n + 1] frames with the same radius and speed. *)
Theorem legacy_lags_one_frame (p : Legacy.Props) (q : PlanetProps) (n : nat) :
  legacyAnchor p = false ->
  Legacy.isHeliocentric p = true ->
  isHeliocentric q = true ->
  vy (Legacy.position p) = 0 ->
  0 < orbitRadius q ->
  Legacy.orbitRadius p = orbitRadius q ->
  Legacy.orbitSpeed p = orbitSpeed q ->
  Legacy.meshPosition (legacyFrames p (S (S n)) (Legacy.mount p))
  = option_map groupPosition (refs (frames q (S n) (mount q))).
Proof.
  intros Hanchor Hh Hq Hy Hr Er Es.
  destruct (legacyFrames_mounted p (S n)) as [pos [Hm [Hpy Ha]]].
  cbn [legacyFrames] in *.
  destruct (legacy_useFrame_mounted p _ pos Hm) as [_ Hm'].
  rewrite Hm', Hanchor, Ha, Hpy, Hy, Er, Es.
  destruct (frames_attached q n (mount q) _ (mount_refs q)) as [rf [Hrf [Hqa _]]].
  assert (Hin : inPlane (orbitRadius q) (frames q n (mount q)))
    by (apply frames_inPlane, inPlane_mount).
  destruct Hin as [rf' [Hrf' Hy']]. rewrite Hrf in Hrf'. injection Hrf' as <-.
  assert (Hc : isHeliocentric q || isExempt (name q) = true)
    by (rewrite Hq; reflexivity).
  generalize (useFrame_circular q (frames q n (mount q)) rf Hrf Hr Hc).
  unfold evaluate. intros He. injection He as _ Hpos.
  cbn [frames]. rewrite Hpos, (Hy' Hr), Hqa.
  cbn [mount angle option_map].
  replace (0 + INR n * orbitSpeed q + orbitSpeed q) with (INR (S n) * orbitSpeed q)
    by (rewrite S_INR; ring).
  reflexivity.
Qed.

Lemma legacy_lags_one_frame_witness :
  Legacy.meshPosition
    (legacyFrames (Legacy.mkProps (mkVector3 10 0 0) "#4169E1" 10 0.029 true) 3
       (Legacy.mount (Legacy.mkProps (mkVector3 10 0 0) "#4169E1" 10 0.029 true)))
  = option_map groupPosition (refs (frames earthHeliocentric 2 (mount earthHeliocentric))).
Proof.
  apply (legacy_lags_one_frame
           (Legacy.mkProps (mkVector3 10 0 0) "#4169E1" 10 0.029 true)
           earthHeliocentric 1).
  - reflexivity.
  - reflexivity.
  - reflexivity.
  - reflexivity.
  - simpl. lra.
  - reflexivity.
  - reflexivity.
Defined.

(** ** The scene across frames and toggles *)

Lemma reachable_inPlane_witness :
  exists st,
    SolarSystem.planets (SolarSystem.toggle (SolarSystem.tick SolarSystem.init)) Sun
    = Some st
    /\ inPlane (orbitRadius sunGeocentric) st.
Proof.
  apply (reachable_inPlane (SolarSystem.toggle (SolarSystem.tick SolarSystem.init))).
  - apply reachable_toggle, reachable_tick, reachable_init.
  - reflexivity.
Defined.

(** What the toggle does to every body but Earth and Moon: its [Planet] is
    mounted anew (or unmounted, when the new frame does not render the
    body), so it starts again from the stored angle 0 with its group at
    [(orbitRadius, 0, 0)] or at its fixed position, whatever its state
    was. *)
Theorem toggle_remounts (s : SolarSystem.State) (b : Body) :
  b <> Earth ->
  b <> Moon ->
  SolarSystem.planets (SolarSystem.toggle s) b
  = option_map mount
      (SolarSystem.propsOf
         (SolarSystem.render (negb (SolarSystem.isHeliocentric s)) b)).
Proof.
  intros HE HM.
  unfold SolarSystem.toggle, SolarSystem.commit, SolarSystem.onClick.
  cbn [SolarSystem.planets SolarSystem.isHeliocentric].
  destruct (SolarSystem.isHeliocentric s), b; try contradiction; reflexivity.
Qed.

Lemma toggle_remounts_witness :
  SolarSystem.planets (SolarSystem.toggle (SolarSystem.tick SolarSystem.init)) Jupiter
  = option_map mount
      (SolarSystem.propsOf
         (SolarSystem.render
            (negb (SolarSystem.isHeliocentric (SolarSystem.tick SolarSystem.init)))
            Jupiter)).
Proof.
  apply (toggle_remounts (SolarSystem.tick SolarSystem.init) Jupiter); discriminate.
Defined.

(** The Moon keeps its distance: its group is a child of the group of
    Earth, so wherever Earth stands and in either frame, a frame of the
    mounted Moon leaves it exactly 2 away from Earth. *)
Theorem moon_distance_from_earth (h : bool) (st : PlanetState) (earth : Vector3) :
  inPlane 2 st ->
  exists p v,
    SolarSystem.render h Moon = PlanetElement p
    /\ snd (evaluate p st) = Some v
    /\ distanceTo (childPosition earth v) earth = 2.
Proof.
  intros [rf [Hrf Hy]].
  eexists. eexists. split; [reflexivity|].
  assert (Hr : 0 < orbitRadius (mkPlanetProps SolarSystem.origin 2 0.07 h "Moon"))
    by (cbn; lra).
  assert (Hc : isHeliocentric (mkPlanetProps SolarSystem.origin 2 0.07 h "Moon")
               || isExempt (name (mkPlanetProps SolarSystem.origin 2 0.07 h "Moon"))
               = true)
    by (cbn [isHeliocentric name]; destruct h; reflexivity).
  rewrite (useFrame_circular _ st rf Hrf Hr Hc). cbn [snd]. split; [reflexivity|].
  rewrite (Hy ltac:(lra)).
  cbn [orbitRadius orbitSpeed].
  unfold distanceTo, childPosition. cbn [vx vy vz].
  set (a := angle st + 0.07).
  replace (vx earth + cos a * 2 - vx earth) with (2 * cos a) by ring.
  replace (vy earth + 0 - vy earth) with 0 by ring.
  replace (vz earth + sin a * 2 - vz earth) with (2 * sin a) by ring.
  apply circle_norm. lra.
Qed.

Lemma moon_distance_from_earth_witness :
  exists p v,
    SolarSystem.render false Moon = PlanetElement p
    /\ snd (evaluate p (mount (mkPlanetProps SolarSystem.origin 2 0.07 false "Moon")))
       = Some v
    /\ distanceTo (childPosition (mkVector3 0 0 0) v) (mkVector3 0 0 0) = 2.
Proof.
  apply (moon_distance_from_earth false
           (mount (mkPlanetProps SolarSystem.origin 2 0.07 false "Moon"))
           (mkVector3 0 0 0)).
  apply (inPlane_mount (mkPlanetProps SolarSystem.origin 2 0.07 false "Moon")).
Defined.
